(** * Assembly Endgame: the hangman client (App.jsx) and its word proxy
      (backend/index.js), embedded as executable definitions.

    Layout:
    - [JsString]: JavaScript strings as lists of UTF-16 code units, with the
      built-in methods the two source files call;
    - [Binary64]: JavaScript numbers and their rounded multiplication;
    - [Json]: response bodies and the property accesses applied to them;
    - [App]: the React component: state, handlers, effects, events;
    - [Proxy]: the Express handler of [GET /api/word];
    - [Screen]: the word boxes, the keyboard and the life tags as rendered;
    - [Confetti]: the effect on the win flag;
    - [EndToEnd]: the client's request served by the proxy;
    - the properties of all of them. *)

From Stdlib Require Import List ZArith Bool String Ascii DecimalString.
From Stdlib Require Import QArith Qround Qpower Lia Lqa Permutation.
Import ListNotations.

Local Open Scope Z_scope.

(* ===================================================================== *)
(** ** JavaScript strings *)
(* ===================================================================== *)

Module JsString.

(** A string is its sequence of UTF-16 code units. *)
Definition code_unit := Z.
Definition t := list code_unit.

(** A source literal made of ASCII characters. *)
Definition lit (s : string) : t :=
  map (fun a => Z.of_N (N_of_ascii a)) (list_ascii_of_string s).

(** [===] on strings. *)
Fixpoint eqb (a b : t) : bool :=
  match a, b with
  | [], [] => true
  | x :: a', y :: b' => (x =? y) && eqb a' b'
  | _, _ => false
  end.

(** [s.split] on the empty separator: one string per code unit. *)
Definition split (s : t) : list t := map (fun c => [c]) s.

Fixpoint startsWith (s p : t) : bool :=
  match p, s with
  | [], _ => true
  | _ :: _, [] => false
  | x :: p', y :: s' => (x =? y) && startsWith s' p'
  end.

(** [s.includes(p)]: [p] occurs in [s] as a substring. *)
Fixpoint includes (s p : t) : bool :=
  startsWith s p ||
  match s with
  | [] => false
  | _ :: s' => includes s' p
  end.

(** [String.prototype.toLowerCase], [toUpperCase] and [normalize("NFD")]
    are built into the JavaScript engine. Their tables are written out for
    the code units U+0000 to U+00FF (Basic Latin and Latin-1 Supplement,
    which hold the English and the Spanish alphabet); a code unit above
    U+00FF is left as it is, so the theorems on the word taken out of a
    body take its code units within that range. *)

Definition lower_unit (c : code_unit) : code_unit :=
  if (65 <=? c) && (c <=? 90) then c + 32
  else if (192 <=? c) && (c <=? 222) && negb (c =? 215) then c + 32
  else c.

Definition toLowerCase (s : t) : t := map lower_unit s.

Definition upper_unit (c : code_unit) : t :=
  if (97 <=? c) && (c <=? 122) then [c - 32]
  else if (224 <=? c) && (c <=? 254) && negb (c =? 247) then [c - 32]
  else if c =? 223 then [83; 83]          (* sharp s *)
  else if c =? 255 then [376]             (* y with diaeresis *)
  else if c =? 181 then [924]             (* micro sign *)
  else [c].

Definition toUpperCase (s : t) : t := flat_map upper_unit s.

(** Canonical decomposition of the capital letters U+00C0 to U+00DE, by
    offset from U+00C0: the base letter and the combining mark. *)
Definition capital_decomposition (k : Z) : option (code_unit * code_unit) :=
  match k with
  | 0 => Some (65, 768)  | 1 => Some (65, 769)  | 2 => Some (65, 770)
  | 3 => Some (65, 771)  | 4 => Some (65, 776)  | 5 => Some (65, 778)
  | 7 => Some (67, 807)
  | 8 => Some (69, 768)  | 9 => Some (69, 769)  | 10 => Some (69, 770)
  | 11 => Some (69, 776)
  | 12 => Some (73, 768) | 13 => Some (73, 769) | 14 => Some (73, 770)
  | 15 => Some (73, 776)
  | 17 => Some (78, 771)
  | 18 => Some (79, 768) | 19 => Some (79, 769) | 20 => Some (79, 770)
  | 21 => Some (79, 771) | 22 => Some (79, 776)
  | 25 => Some (85, 768) | 26 => Some (85, 769) | 27 => Some (85, 770)
  | 28 => Some (85, 776)
  | 29 => Some (89, 769)
  | _ => None
  end.

(** The small letters U+00E0 to U+00FE decompose as their capitals do, on
    the small base letter; U+00FF is y with diaeresis. *)
Definition decompose_unit (c : code_unit) : t :=
  if (192 <=? c) && (c <=? 222) then
    match capital_decomposition (c - 192) with
    | Some (base, mark) => [base; mark]
    | None => [c]
    end
  else if (224 <=? c) && (c <=? 254) then
    match capital_decomposition (c - 224) with
    | Some (base, mark) => [base + 32; mark]
    | None => [c]
    end
  else if c =? 255 then [121; 776]
  else [c].

(** [s.normalize("NFD")]. *)
Definition normalizeNFD (s : t) : t := flat_map decompose_unit s.

(** The character class of the regular expression in [getNewWord]:
    the code units U+0300 to U+036F. *)
Definition isCombiningMark (c : code_unit) : bool :=
  (768 <=? c) && (c <=? 879).

(** [s.replace(re, empty)] with the global flag: every code unit of the
    class is deleted. *)
Definition removeCombiningMarks (s : t) : t :=
  filter (fun c => negb (isCombiningMark c)) s.

End JsString.

(** [a.includes(x)] on an array of strings. *)
Definition array_includes (a : list JsString.t) (x : JsString.t) : bool :=
  existsb (JsString.eqb x) a.

(* ===================================================================== *)
(** ** JavaScript numbers *)
(* ===================================================================== *)

(** A JavaScript number is an IEEE 754 binary64 value, and [*] gives the
    binary64 value nearest to the exact product, ties going to the even
    significand. A finite value is kept as the rational it denotes (the
    two zeros are not told apart: no operation here depends on the sign
    of zero). *)
Module Binary64.

Local Open Scope Q_scope.

Inductive number :=
| NaN
| Infinity (negative : bool)
| Finite (q : Q).

Definition pow2 (e : Z) : Q := Qpower 2 e.

(** The exponent of the leading bit of [x > 0]: the floor of its binary
    logarithm. The difference of the bit lengths of numerator and
    denominator is right or one too large. *)
Definition ilog2 (x : Q) : Z :=
  let e0 := (Z.log2 (Qnum x) - Z.log2 (Zpos (Qden x)))%Z in
  if Qle_bool (pow2 e0) x then e0 else (e0 - 1)%Z.

(** The integer nearest to [m >= 0], a tie going to the even one. *)
Definition nearestEven (m : Q) : Z :=
  let den := Zpos (Qden m) in
  let f := (Qnum m / den)%Z in
  let r := (Qnum m mod den)%Z in
  if (2 * r <? den)%Z then f
  else if (den <? 2 * r)%Z then (f + 1)%Z
  else if Z.even f then f else (f + 1)%Z.

(** Rounding of a magnitude [x > 0]: 53 significant bits, the last of
    weight [2^quantum], which does not go below the subnormal weight
    [2^-1074]; a result of [2^1024] or more overflows ([None]). *)
Definition roundMagnitude (x : Q) : option Q :=
  let quantum := Z.max (ilog2 x - 52) (-1074) in
  let v := inject_Z (nearestEven (x * pow2 (- quantum))) * pow2 quantum in
  if Qle_bool (pow2 1024) v then None else Some v.

(** The binary64 value nearest to the rational [x]. *)
Definition round64 (x : Q) : number :=
  match x ?= 0 with
  | Eq => Finite 0
  | Gt => match roundMagnitude x with
          | Some v => Finite v
          | None => Infinity false
          end
  | Lt => match roundMagnitude (- x) with
          | Some v => Finite (- v)
          | None => Infinity true
          end
  end.

Definition isNegative (q : Q) : bool :=
  match q ?= 0 with Lt => true | _ => false end.

(** [a * b]. *)
Definition mul (a b : number) : number :=
  match a, b with
  | NaN, _ | _, NaN => NaN
  | Infinity s, Infinity t => Infinity (xorb s t)
  | Infinity s, Finite q | Finite q, Infinity s =>
      if Qeq_bool q 0 then NaN else Infinity (xorb s (isNegative q))
  | Finite x, Finite y => round64 (x * y)
  end.



End Binary64.

(* ===================================================================== *)
(** ** JSON bodies and the accesses made on them *)
(* ===================================================================== *)

(** A statement either completes with a value or throws. *)
Inductive error := TypeError | SyntaxError | NetworkError.

Inductive completion (A : Type) : Type :=
| Normal (a : A)
| Throw (e : error).
Arguments Normal {A} a.
Arguments Throw {A} e.

Definition bind {A B : Type} (c : completion A) (k : A -> completion B)
  : completion B :=
  match c with
  | Normal a => k a
  | Throw e => Throw e
  end.

Declare Scope js_scope.
Delimit Scope js_scope with js.
Notation "x <- c ;; k" := (bind c (fun x => k))
  (at level 61, c at next level, right associativity) : js_scope.

Module Json.

(** What [response.json()] yields. Numbers are kept to the integers. *)
#[local] Unset Elimination Schemes.
Inductive t :=
| Null
| Bool (b : bool)
| Number (n : Z)
| Str (s : JsString.t)
| Array (xs : list t)
| Object (fields : list (JsString.t * t)).
#[local] Set Elimination Schemes.

(** A JavaScript value read out of a body: a JSON value or [undefined]. *)
Inductive value :=
| Undefined
| Val (j : t).

(** A JavaScript number. *)
Definition number := Binary64.number.

(** What [Math.floor] leaves of a number, used as an index. *)
Inductive index :=
| NotANumber
| Unbounded (negative : bool)
| Integer (z : Z).

Fixpoint lookup (key : JsString.t) (fields : list (JsString.t * t)) : value :=
  match fields with
  | [] => Undefined
  | (k, v) :: rest => if JsString.eqb k key then Val v else lookup key rest
  end.

(** [v.key] for a key that is not an index. Reading a property of
    [undefined] or [null] throws; arrays and strings have [length]. *)
Definition getProp (v : value) (key : JsString.t) : completion value :=
  match v with
  | Undefined | Val Null => Throw TypeError
  | Val (Object fields) => Normal (lookup key fields)
  | Val (Array xs) =>
      if JsString.eqb key (JsString.lit "length")
      then Normal (Val (Number (Z.of_nat (List.length xs))))
      else Normal Undefined
  | Val (Str s) =>
      if JsString.eqb key (JsString.lit "length")
      then Normal (Val (Number (Z.of_nat (List.length s))))
      else Normal Undefined
  | Val (Bool _) | Val (Number _) => Normal Undefined
  end.

(** The operand of [*] as a number. A JSON integer is read as the
    binary64 value nearest to it, which is the integer itself up to
    [2^53] in magnitude. [undefined] and objects give NaN, [null] and
    [false] give 0. A string or array operand goes through the engine's
    numeric-literal parser, which is not written out here: the embedding
    gives NaN for it. That case arises only when [results] is itself a
    JSON object with a string or array as its [length]; the statements
    that name the entry drawn take [results] to be an array. *)
Definition toNumber (v : value) : number :=
  match v with
  | Val (Number n) =>
      if Z.abs n <=? 2 ^ 53 then Binary64.Finite (inject_Z n)
      else Binary64.round64 (inject_Z n)
  | Val Null => Binary64.Finite 0%Q
  | Val (Bool b) => Binary64.Finite (if b then 1%Q else 0%Q)
  | _ => Binary64.NaN
  end.

(** [a * b], rounded as binary64. *)
Definition times (a b : number) : number := Binary64.mul a b.

(** [Math.floor]. NaN and the infinities stay what they are. *)
Definition Math_floor (x : number) : index :=
  match x with
  | Binary64.NaN => NotANumber
  | Binary64.Infinity s => Unbounded s
  | Binary64.Finite q => Integer (Qfloor q)
  end.

(** [Math.floor(random * n)] for a count [n]. *)
Definition drawIndex (random : Q) (n : Z) : index :=
  Math_floor (times (Binary64.Finite random) (toNumber (Val (Number n)))).

(** A computed index as a property key (an integer in decimal digits, as
    the engine writes it below [10^21]). *)
Definition indexKey (i : index) : JsString.t :=
  match i with
  | NotANumber => JsString.lit "NaN"
  | Unbounded false => JsString.lit "Infinity"
  | Unbounded true => JsString.lit "-Infinity"
  | Integer z => JsString.lit (NilZero.string_of_int (Z.to_int z))
  end.

(** [v[i]] for a computed index [i]. Out of range, or not an integer, it
    reads [undefined]; it does not throw. *)
Definition getElem (v : value) (i : index) : completion value :=
  match v with
  | Undefined | Val Null => Throw TypeError
  | Val (Array xs) =>
      match i with
      | Integer z =>
          if z <? 0 then Normal Undefined
          else match nth_error xs (Z.to_nat z) with
               | Some x => Normal (Val x)
               | None => Normal Undefined
               end
      | _ => Normal Undefined
      end
  | Val (Str s) =>
      match i with
      | Integer z =>
          if z <? 0 then Normal Undefined
          else match nth_error s (Z.to_nat z) with
               | Some c => Normal (Val (Str [c]))
               | None => Normal Undefined
               end
      | _ => Normal Undefined
      end
  | Val (Object fields) => Normal (lookup (indexKey i) fields)
  | Val (Bool _) | Val (Number _) => Normal Undefined
  end.

(** [v.toLowerCase()]: only a string has the method. *)
Definition call_toLowerCase (v : value) : completion JsString.t :=
  match v with
  | Val (Str s) => Normal (JsString.toLowerCase s)
  | _ => Throw TypeError
  end.

End Json.

(* ===================================================================== *)
(** ** The game client: the [App] component *)
(* ===================================================================== *)

Module App.

Import Json.
Local Open Scope js_scope.

(** The five [useState] cells. *)
Record State := mkState {
  currentWord : JsString.t;
  guessedLetters : list JsString.t;
  winGame : bool;
  wrongAttemps : nat;
  language : option JsString.t       (* [None] is [null] *)
}.

(** Their initial values. *)
Definition initialState : State :=
  mkState (JsString.lit " ") [] false 0 None.

(** [const gameOver = winGame || wrongAttemps > 7]. *)
Definition gameOver (s : State) : bool :=
  winGame s || (7 <? wrongAttemps s)%nat.

Definition alphabet : JsString.t :=
  JsString.lit "qwertyuiopasdfghjklzxcvbnm".

(** What a handler or an effect does: it calls state setters, and it may
    issue the request of [getNewWord], which closes over [language]. *)
Inductive action :=
| setCurrentWord (word : JsString.t)
| setGuessedLetters (f : list JsString.t -> list JsString.t)
| setWinGame (b : bool)
| setWrongAttemps (f : nat -> nat)
| setLanguage (code : JsString.t)
| fetchWord (lang : option JsString.t).

(** The component instance: its state and the [getNewWord] calls that
    wait for their response, each with the language it closed over. *)
Record Component := mkComponent {
  ui : State;
  inFlight : list (option JsString.t)
}.

Definition initial : Component := mkComponent initialState [].

Definition apply (c : Component) (a : action) : Component :=
  let s := ui c in
  match a with
  | setCurrentWord word =>
      mkComponent (mkState word (guessedLetters s) (winGame s)
                     (wrongAttemps s) (language s)) (inFlight c)
  | setGuessedLetters f =>
      mkComponent (mkState (currentWord s) (f (guessedLetters s)) (winGame s)
                     (wrongAttemps s) (language s)) (inFlight c)
  | setWinGame b =>
      mkComponent (mkState (currentWord s) (guessedLetters s) b
                     (wrongAttemps s) (language s)) (inFlight c)
  | setWrongAttemps f =>
      mkComponent (mkState (currentWord s) (guessedLetters s) (winGame s)
                     (f (wrongAttemps s)) (language s)) (inFlight c)
  | setLanguage code =>
      mkComponent (mkState (currentWord s) (guessedLetters s) (winGame s)
                     (wrongAttemps s) (Some code)) (inFlight c)
  | fetchWord lang => mkComponent s (inFlight c ++ [lang])
  end.

Definition perform (acts : list action) (c : Component) : Component :=
  fold_left apply acts c.

(** *** Handlers *)

(** [checkGuessedLetter(event)], on the text of the clicked button. *)
Definition checkGuessedLetter (textContent : JsString.t) (s : State)
  : list action :=
  let buttonValue := JsString.toLowerCase textContent in
  if negb (array_includes (guessedLetters s) buttonValue) then
    setGuessedLetters (fun prev => prev ++ [buttonValue]) ::
    (if negb (JsString.includes (currentWord s) buttonValue)
     then [setWrongAttemps (fun prev => S prev)]
     else [])
  else [].

(** [resetGame()]: [getNewWord()] is called without [await], so only its
    request is issued here; three setters follow. *)
Definition resetGame (s : State) : list action :=
  [ fetchWord (language s);
    setGuessedLetters (fun _ => []);
    setWinGame false;
    setWrongAttemps (fun _ => 0%nat) ].

(** The word [getNewWord] takes out of the body [data]; [random] is the
    value of [Math.random()], a binary64 value from 0 up to [1 - 2^-53]. *)
Definition extractWord (lang : option JsString.t) (data : Json.t) (random : Q)
  : completion JsString.t :=
  match lang with
  | Some code =>
      if JsString.eqb code (JsString.lit "en") then
        word <- getProp (Val data) (JsString.lit "word") ;;
        first <- getElem word (Integer 0) ;;
        call_toLowerCase first
      else if JsString.eqb code (JsString.lit "es") then
        spanishWords <- getProp (Val data) (JsString.lit "results") ;;
        len <- getProp spanishWords (JsString.lit "length") ;;
        entry <- getElem spanishWords
                   (Math_floor (times (Binary64.Finite random)
                                      (toNumber len))) ;;
        palabra <- getProp entry (JsString.lit "Palabra") ;;
        lower <- call_toLowerCase palabra ;;
        Normal (JsString.removeCombiningMarks (JsString.normalizeNFD lower))
      else Normal []
  | None => Normal []
  end.

(** [getNewWord()] from the point where the response is there: [body] is
    the outcome of [fetch] followed by [res.json()]. A throw leaves the
    promise rejected and calls no setter. *)
Definition getNewWord (lang : option JsString.t) (body : completion Json.t)
    (random : Q) : list action :=
  match (data <- body ;; extractWord lang data random) with
  | Normal word => [setCurrentWord word]
  | Throw _ => []
  end.

(** *** Effects *)

(** [useEffect(..., [language])]. *)
Definition languageEffect (s : State) : list action :=
  match language s with
  | Some _ => [fetchWord (language s)]
  | None => []
  end.

(** [hasWon] of the effect on [[guessedLetters]]. *)
Definition hasWon (s : State) : bool :=
  forallb (fun letter => array_includes (guessedLetters s) letter)
          (JsString.split (currentWord s)).

(** [useEffect(..., [guessedLetters])]. *)
Definition winEffect (s : State) : list action :=
  if hasWon s then [setWinGame true] else [].

(** The third effect, on [[winGame]], fires the confetti and calls no
    setter: it is not part of the state transitions. *)

Definition setsGuessedLetters (a : action) : bool :=
  match a with setGuessedLetters _ => true | _ => false end.

Definition sameLanguage (a b : option JsString.t) : bool :=
  match a, b with
  | None, None => true
  | Some x, Some y => JsString.eqb x y
  | _, _ => false
  end.

(** One event turn: the handler's actions are performed, the component is
    rendered again, and the effects whose dependency changed run, in the
    order they are declared. Every call of [setGuessedLetters] stores a
    new array, so the dependency [[guessedLetters]] changes with it. *)
Definition dispatch (acts : list action) (c : Component) : Component :=
  let c1 := perform acts c in
  let e1 := if sameLanguage (language (ui c)) (language (ui c1))
            then [] else languageEffect (ui c1) in
  let e2 := if existsb setsGuessedLetters acts
            then winEffect (ui c1) else [] in
  perform (e1 ++ e2) c1.

(** *** Events *)

(** The two flag buttons of the language picker. *)
Inductive flag := Spain | UK.

Definition flagCode (f : flag) : JsString.t :=
  match f with
  | Spain => JsString.lit "es"
  | UK => JsString.lit "en"
  end.

Inductive event :=
| ClickFlag (f : flag)
| ClickKey (letterButton : JsString.code_unit)
| ClickNewGame
| Settle (k : nat) (body : completion Json.t) (random : Q).

(** A keyboard button: [disabled={gameOver}], [onClick={checkGuessedLetter}],
    with the capital letter as its text. *)
Definition pressKey (letterButton : JsString.code_unit) (c : Component)
  : Component :=
  if gameOver (ui c) then c
  else dispatch
         (checkGuessedLetter (JsString.toUpperCase [letterButton]) (ui c)) c.

Definition onKeyboard (letterButton : JsString.code_unit) : bool :=
  existsb (Z.eqb letterButton) alphabet.

(** The [k]-th waiting [getNewWord] call is taken off the list. *)
Fixpoint removeNth {A : Type} (k : nat) (l : list A) : list A :=
  match l, k with
  | [], _ => []
  | _ :: rest, O => rest
  | x :: rest, S k' => x :: removeNth k' rest
  end.

(** What an event does to the component. The language picker is the only
    view while [language] is [null]; afterwards the game view is shown,
    with the keyboard, and with the New Game button when [gameOver]. An
    event on an element that is not on screen does not occur. *)
Definition step (c : Component) (e : event) : Component :=
  match e with
  | ClickFlag f =>
      match language (ui c) with
      | None => dispatch [setLanguage (flagCode f)] c
      | Some _ => c
      end
  | ClickKey letterButton =>
      match language (ui c) with
      | Some _ =>
          if onKeyboard letterButton then pressKey letterButton c else c
      | None => c
      end
  | ClickNewGame =>
      match language (ui c) with
      | Some _ =>
          if gameOver (ui c) then dispatch (resetGame (ui c)) c else c
      | None => c
      end
  | Settle k body random =>
      match nth_error (inFlight c) k with
      | Some lang =>
          dispatch (getNewWord lang body random)
                   (mkComponent (ui c) (removeNth k (inFlight c)))
      | None => c
      end
  end.

Definition run (events : list event) (c : Component) : Component :=
  fold_left step events c.

(** A sequence of guesses. *)
Definition guesses (keys : list JsString.code_unit) (c : Component)
  : Component :=
  run (map ClickKey keys) c.

(** The states the component can be in. *)
Inductive reachable : Component -> Prop :=
| reach_initial : reachable initial
| reach_step c e : reachable c -> reachable (step c e).

(** Every character of the target word is among the guessed letters. *)
Definition allGuessed (s : State) : Prop :=
  forall ch, In ch (currentWord s) -> In [ch] (guessedLetters s).

(** The win flag agrees with the guessed letters. *)
Definition winAgrees (s : State) : Prop :=
  winGame s = true <-> allGuessed s.

End App.

(* ===================================================================== *)
(** ** The word proxy: [GET /api/word] *)
(* ===================================================================== *)

Module Proxy.

Local Open Scope string_scope.

(** [process.env]: a variable that is not set reads [undefined]. *)
Record Env := mkEnv {
  NINJAS_API_KEY : option string;
  SPANISH_API_KEY : option string
}.

(** [req.query.lang] as the query parser leaves it: absent, a string
    (empty for [?lang=]), or, for repeated or bracketed parameters, an
    array or an object, whose content the handler never looks at. *)
Inductive queryValue :=
| QUndefined
| QString (s : string)
| QArray (items : list string)
| QObject (fields : list (string * string)).

(** Truthiness, for [||]: [undefined] and the empty string are falsy. *)
Definition truthy (q : queryValue) : bool :=
  match q with
  | QUndefined => false
  | QString EmptyString => false
  | _ => true
  end.

(** [req.query.lang || "en"]. *)
Definition langOf (q : queryValue) : queryValue :=
  if truthy q then q else QString "en".

(** [lang === "en"]. *)
Definition isEn (lang : queryValue) : bool :=
  match lang with
  | QString s => String.eqb s "en"
  | _ => false
  end.

(** An outbound request: the URL and the headers object; a header whose
    value is [undefined] is [None]. *)
Record request := mkRequest {
  url : string;
  headers : list (string * option string)
}.

(** The template literal [`Bearer ${...}`]. *)
Definition bearer (key : option string) : string :=
  "Bearer " ++ match key with
               | Some k => k
               | None => "undefined"
               end.

Definition englishRequest (env : Env) : request :=
  mkRequest "https://api.api-ninjas.com/v1/randomword"
            [("X-Api-Key", NINJAS_API_KEY env)].

Definition spanishRequest (env : Env) : request :=
  mkRequest
    "https://www.freeapidatabase.com/View/methodget.php?idTbla=522&idProyect=184"
    [("Authorization", Some (bearer (SPANISH_API_KEY env)))].

(** What [fetch] resolves to: the upstream status and the outcome of
    [response.json()], which throws on a body that is not JSON. *)
Record response := mkResponse {
  upstreamStatus : nat;
  json : completion Json.t
}.

(** The network, as the handler sees it: [fetch] resolves or throws. *)
Definition network := request -> completion response.

(** What the handler sends back. *)
Record reply := mkReply {
  status : nat;
  body : Json.t
}.

(** What one run of the handler leaves behind. *)
Record effects := mkEffects {
  outbound : list request;      (* calls of [fetch], in order *)
  console : list error;         (* calls of [console.error] *)
  replies : list reply          (* replies sent on [res] *)
}.

Definition noEffects : effects := mkEffects [] [] [].

(** The handler's statements: they read and extend the effects and either
    complete or throw. *)
Definition M (A : Type) : Type := effects -> completion A * effects.

Definition ret {A : Type} (a : A) : M A := fun fx => (Normal a, fx).

Definition bindM {A B : Type} (m : M A) (k : A -> M B) : M B :=
  fun fx =>
    match m fx with
    | (Normal a, fx') => k a fx'
    | (Throw e, fx') => (Throw e, fx')
    end.

(** [try { m } catch (err) { h err }]. *)
Definition tryCatch {A : Type} (m : M A) (h : error -> M A) : M A :=
  fun fx =>
    match m fx with
    | (Normal a, fx') => (Normal a, fx')
    | (Throw e, fx') => h e fx'
    end.

Declare Scope proxy_scope.
Delimit Scope proxy_scope with proxy.
Notation "x <- c ;; k" := (bindM c (fun x => k))
  (at level 61, c at next level, right associativity) : proxy_scope.
Notation "c ;;; k" := (bindM c (fun _ => k))
  (at level 61, right associativity) : proxy_scope.

Section Handler.

Variable env : Env.
Variable upstream : network.

Definition fetch (r : request) : M response :=
  fun fx =>
    (upstream r,
     mkEffects (outbound fx ++ [r]) (console fx) (replies fx)).

Definition response_json (r : response) : M Json.t :=
  fun fx => (json r, fx).

Definition console_error (e : error) : M unit :=
  fun fx =>
    (Normal tt, mkEffects (outbound fx) (console fx ++ [e]) (replies fx)).

(** [res.status(code).json(data)]; [res.json(data)] is the case 200. *)
Definition res_json (code : nat) (data : Json.t) : M unit :=
  fun fx =>
    (Normal tt,
     mkEffects (outbound fx) (console fx)
               (replies fx ++ [mkReply code data])).

Definition errorBody : Json.t :=
  Json.Object
    [(JsString.lit "error",
      Json.Str (JsString.lit "Error retrieving word from external API"))].

Local Open Scope proxy_scope.

(** The route handler, on the value of [req.query.lang]. *)
Definition handler (queryLang : queryValue) : M unit :=
  let lang := langOf queryLang in
  tryCatch
    (response <- (if isEn lang
                  then fetch (englishRequest env)
                  else fetch (spanishRequest env)) ;;
     data <- response_json response ;;
     res_json 200 data)
    (fun err =>
       console_error err ;;;
       res_json 500 errorBody).

(** One request served from start to end. *)
Definition serve (queryLang : queryValue) : effects :=
  snd (handler queryLang noEffects).

End Handler.

End Proxy.

(* ===================================================================== *)
(** ** Bodies and games used in the examples *)
(* ===================================================================== *)

Module Scenario.

Import Json App.
Local Open Scope string_scope.

(** The body of the English service: [{ word: [w] }]. *)
Definition englishBody (w : JsString.t) : Json.t :=
  Object [(JsString.lit "word", Array [Str w])].

(** The body of the Spanish service:
    [{ results: [{ Palabra: p }, ...] }]. *)
Definition spanishBody (palabras : list JsString.t) : Json.t :=
  Object [(JsString.lit "results",
           Array (map (fun p => Object [(JsString.lit "Palabra", Str p)])
                      palabras))].

(** A-acute, R, B, O, L. *)
Definition ARBOL : JsString.t := [193; 82; 66; 79; 76].

Definition en : option JsString.t := Some (JsString.lit "en").
Definition es : option JsString.t := Some (JsString.lit "es").

(** English is chosen and the word arrives before any key is pressed. *)
Definition freshGame (w : string) : Component :=
  run [ClickFlag UK; Settle 0 (Normal (englishBody (JsString.lit w))) 0]
      initial.

(** English is chosen; nothing has arrived yet. *)
Definition loading : Component := step initial (ClickFlag UK).

(** The key [a] is pressed while the word is on its way; the word [a]
    arrives; the key [a] is pressed again. *)
Definition earlyGuess : Component :=
  run [ClickFlag UK; ClickKey 97;
       Settle 0 (Normal (englishBody (JsString.lit "a"))) 0;
       ClickKey 97] initial.

(** The empty word arrives and a key is pressed; New Game is clicked and
    the word [cat] arrives. *)
Definition resetOnEmptyWord : Component :=
  run [ClickFlag UK;
       Settle 0 (Normal (englishBody [])) 0;
       ClickKey 97;
       ClickNewGame;
       Settle 0 (Normal (englishBody (JsString.lit "cat"))) 0] initial.

(** Ten Spanish words [wa] to [wj]. *)
Definition tenWords : list JsString.t :=
  map JsString.lit ["wa"; "wb"; "wc"; "wd"; "we"; "wf"; "wg"; "wh"; "wi"; "wj"].

(** The binary64 value nearest to 0.7. *)
Definition sevenTenths : Q := 3152519739159347 # 4503599627370496.

(** The word [cat] is guessed. *)
Definition wonCat : Component :=
  guesses (JsString.lit "cat") (freshGame "cat").

(** New Game is clicked on it and the request fails. *)
Definition resetFailed : Component :=
  run [ClickNewGame; Settle 0 (Throw NetworkError) 0] wonCat.

(** A configured proxy and a network on which every call fails. *)
Definition sampleEnv : Proxy.Env :=
  Proxy.mkEnv (Some "ninjas-key") (Some "spanish-key").

Definition deadNetwork : Proxy.network := fun _ => Throw NetworkError.

End Scenario.

(* ===================================================================== *)
(** ** What the component puts on screen *)
(* ===================================================================== *)

Module Screen.

Import App.
Local Open Scope string_scope.

(** [displayedWord]: nothing while the word is the one-blank placeholder,
    else one box per character, holding the capital letter once it is
    guessed and the empty string before. *)
Definition displayedWord (s : State) : option (list JsString.t) :=
  if negb (JsString.eqb (currentWord s) (JsString.lit " ")) then
    Some (map (fun letter =>
                 if array_includes (guessedLetters s) letter
                 then JsString.toUpperCase letter
                 else [])
              (JsString.split (currentWord s)))
  else None.

(** A keyboard button as it is rendered. *)
Record button := mkButton {
  key : JsString.t;
  disabled : bool;
  className : string;
  label : JsString.t
}.

(** The body of the [map] that builds [keyboard]. *)
Definition keyButton (s : State) (letterButton : JsString.t) : button :=
  let isGuessed :=
    array_includes (guessedLetters s) (JsString.toLowerCase letterButton) in
  let isCorrect :=
    JsString.includes (currentWord s) (JsString.toLowerCase letterButton) in
  let className :=
    "buttonColor" ++ (if isGuessed
                      then (if isCorrect then " green" else " red")
                      else EmptyString) in
  mkButton letterButton (gameOver s) className
           (JsString.toUpperCase letterButton).

Definition keyboard (s : State) : list button :=
  map (keyButton s) (JsString.split alphabet).

Definition isRed (b : button) : bool :=
  String.eqb (className b) "buttonColor red".

Definition isGreen (b : button) : bool :=
  String.eqb (className b) "buttonColor green".

(** An entry of the [languages] list, which lives in a module of its own;
    the list is a parameter of what follows. *)
Record programmingLanguage := mkLanguage {
  name : string;
  backgroundColor : string;
  color : string
}.

(** A life tag as it is rendered. *)
Record lifeTag := mkTag {
  tagKey : string;
  tagBackground : string;
  tagColor : string;
  tagClass : string
}.

(** [l.map((x, index) => f x index)], counting from [index]. *)
Fixpoint mapIndexed {A B : Type} (f : A -> nat -> B) (index : nat) (l : list A)
  : list B :=
  match l with
  | [] => []
  | x :: rest => f x index :: mapIndexed f (S index) rest
  end.

(** [programmingLanguages]: the tag at [index] is dimmed when
    [wrongAttemps <= index] fails. *)
Definition programmingLanguages (languages : list programmingLanguage)
    (s : State) : list lifeTag :=
  mapIndexed
    (fun language index =>
       mkTag (name language) (backgroundColor language) (color language)
             (if (wrongAttemps s <=? index)%nat
              then EmptyString else "wrong-answer"))
    0%nat languages.

Definition isLost (t : lifeTag) : bool := String.eqb (tagClass t) "wrong-answer".

(** The two status sections: [winGame && ...] and [wrongAttemps > 7 && ...]. *)
Definition winBanner (s : State) : bool := winGame s.
Definition loseBanner (s : State) : bool := (7 <? wrongAttemps s)%nat.

(** The guessed letters that do not occur in the word. *)
Definition misses (s : State) : list JsString.t :=
  filter (fun letter => negb (JsString.includes (currentWord s) letter))
         (guessedLetters s).

(** A guessed letter as the keyboard produces it: one small letter of the
    alphabet. *)
Definition isKeyLetter (letter : JsString.t) : bool :=
  match letter with
  | [ch] => onKeyboard ch
  | _ => false
  end.

End Screen.

(* ===================================================================== *)
(** ** The effect on [winGame]: confetti *)
(* ===================================================================== *)

Module Confetti.

Import App.

(** The handler an event runs and the component it runs on; [None] when
    the element is not on screen or is disabled. *)
Definition handlerOf (c : Component) (e : event)
  : option (list action * Component) :=
  match e with
  | ClickFlag f =>
      match language (ui c) with
      | None => Some ([setLanguage (flagCode f)], c)
      | Some _ => None
      end
  | ClickKey letterButton =>
      match language (ui c) with
      | Some _ =>
          if onKeyboard letterButton && negb (gameOver (ui c))
          then Some (checkGuessedLetter
                       (JsString.toUpperCase [letterButton]) (ui c), c)
          else None
      | None => None
      end
  | ClickNewGame =>
      match language (ui c) with
      | Some _ =>
          if gameOver (ui c) then Some (resetGame (ui c), c) else None
      | None => None
      end
  | Settle k body random =>
      match nth_error (inFlight c) k with
      | Some lang =>
          Some (getNewWord lang body random,
                mkComponent (ui c) (removeNth k (inFlight c)))
      | None => None
      end
  end.

(** [useEffect(..., [winGame])] after one render: it runs when [winGame]
    differs from the render before, and fires when it is true. *)
Definition confettiEffect (before after : State) : nat :=
  if Bool.eqb (winGame before) (winGame after) then 0%nat
  else if winGame after then 1%nat else 0%nat.

(** An event turn renders twice: after the handler, and after the setters
    the effects have called. *)
Definition confettiIn (acts : list action) (c : Component) : nat :=
  (confettiEffect (ui c) (ui (perform acts c)) +
   confettiEffect (ui (perform acts c)) (ui (dispatch acts c)))%nat.

Definition confettiOn (c : Component) (e : event) : nat :=
  match handlerOf c e with
  | Some (acts, c0) => confettiIn acts c0
  | None => 0%nat
  end.

Fixpoint confettiDuring (events : list event) (c : Component) : nat :=
  match events with
  | [] => 0%nat
  | e :: rest => (confettiOn c e + confettiDuring rest (step c e))%nat
  end.

End Confetti.

(* ===================================================================== *)
(** ** The shape of a word *)
(* ===================================================================== *)

Module WordShape.

(** Not a capital letter A to Z. *)
Definition notCapital (ch : JsString.code_unit) : Prop := ~ (65 <= ch <= 90).

(** A string of Basic Latin and Latin-1 Supplement code units, the range
    for which the case and decomposition tables are written out. *)
Definition latin1 (s : JsString.t) : Prop :=
  Forall (fun ch => 0 <= ch <= 255) s.

End WordShape.

(* ===================================================================== *)
(** ** What holds of every state of the component *)
(* ===================================================================== *)

Module Invariant.

Import App.

(** [language] is [null] or one of the two codes of the flag buttons. *)
Definition chosen (lang : option JsString.t) : Prop :=
  lang = None \/ lang = Some (flagCode UK) \/ lang = Some (flagCode Spain).

(** The guessed letters are distinct letters of the keyboard. *)
Definition guessedTidy (s : State) : Prop :=
  NoDup (guessedLetters s) /\
  Forall (fun letter => Screen.isKeyLetter letter = true) (guessedLetters s).

Definition wellFormed (c : Component) : Prop :=
  (wrongAttemps (ui c) <= 8)%nat /\
  (wrongAttemps (ui c) <= List.length (guessedLetters (ui c)))%nat /\
  guessedTidy (ui c) /\
  chosen (language (ui c)) /\
  Forall (fun lang => lang = language (ui c)) (inFlight c) /\
  (language (ui c) = None -> c = initial).

End Invariant.

(* ===================================================================== *)
(** ** The client's request through the proxy *)
(* ===================================================================== *)

Module EndToEnd.

Import App.
Local Open Scope string_scope.

Definition asciiOf (s : JsString.t) : string :=
  string_of_list_ascii (map (fun ch => ascii_of_N (Z.to_N ch)) s).

(** The query of [`http://localhost:3001/api/word?lang=${language}`] as the
    proxy parses it. The language codes hold no character that is special
    in a query string. *)
Definition queryOf (lang : option JsString.t) : Proxy.queryValue :=
  Proxy.QString match lang with
                | Some code => asciiOf code
                | None => "null"
                end.

(** What [fetch] and [res.json()] give the client: the body of the proxy's
    reply, whatever its status, since [getNewWord] does not look at it. *)
Definition throughProxy (env : Proxy.Env) (upstream : Proxy.network)
    (lang : option JsString.t) : completion Json.t :=
  match Proxy.replies (Proxy.serve env upstream (queryOf lang)) with
  | r :: _ => Normal (Proxy.body r)
  | [] => Throw NetworkError
  end.

(** The setters [getNewWord] calls when its request goes through the
    proxy. *)
Definition fetchedWord (env : Proxy.Env) (upstream : Proxy.network)
    (lang : option JsString.t) (random : Q) : list action :=
  getNewWord lang (throughProxy env upstream lang) random.

(** The provider a flag leads to. *)
Definition providerOf (env : Proxy.Env) (f : flag) : Proxy.request :=
  match f with
  | UK => Proxy.englishRequest env
  | Spain => Proxy.spanishRequest env
  end.

End EndToEnd.

(* ===================================================================== *)
(** ** More games and bodies for the examples *)
(* ===================================================================== *)

Module Sample.

Import Json App Scenario.
Local Open Scope string_scope.

(** Four guesses on [cat], two of them wrong. *)
Definition midGame : Component :=
  guesses (JsString.lit "cxaz") (freshGame "cat").

(** A word with a hyphen, which is on no key. *)
Definition hyphenGame : Component := freshGame "co-op".

(** The English service answers with the word [Cat]. *)
Definition catNetwork : Proxy.network :=
  fun _ => Normal (Proxy.mkResponse 200
                     (Normal (englishBody [67; 97; 116]))).

(** The Spanish service answers with one entry. *)
Definition arbolNetwork : Proxy.network :=
  fun _ => Normal (Proxy.mkResponse 200 (Normal (spanishBody [ARBOL]))).

(** English is chosen, eight letters are missed while the word is on its
    way, and New Game is clicked: two requests wait. *)
Definition twoWaiting : Component :=
  run (ClickFlag UK :: map ClickKey (JsString.lit "xyzqjvwk") ++ [ClickNewGame])
      initial.

(** The word [dog], eight letters that are not in it, and the game lost
    on them. *)
Definition dogGame : Component := freshGame "dog".
Definition eightWrong : JsString.t := JsString.lit "xyzqjvwk".
Definition lostDog : Component := guesses eightWrong dogGame.

(** Two English bodies. *)
Definition catBody : completion Json.t :=
  Normal (englishBody (JsString.lit "cat")).
Definition dogBody : completion Json.t :=
  Normal (englishBody (JsString.lit "dog")).

(** Nine life tags. *)
Definition nineLanguages : list Screen.programmingLanguage :=
  map (fun n => Screen.mkLanguage n "#000" "#fff")
      ["HTML"; "CSS"; "JavaScript"; "React"; "TypeScript"; "Node.js";
       "Python"; "Ruby"; "Assembly"].

End Sample.

(* ===================================================================== *)
(** ** Properties of the string and array primitives *)
(* ===================================================================== *)

Section StringFacts.

Import JsString.

Lemma eqb_eq (a b : t) : eqb a b = true <-> a = b.
Proof.
  revert b; induction a as [|x a IH]; intros [|y b]; simpl;
    try (split; [discriminate | congruence]); try tauto.
  rewrite andb_true_iff, Z.eqb_eq, IH.
  split; [intros [-> ->]; reflexivity | intros [= -> ->]; auto].
Qed.

Lemma eqb_refl (a : t) : eqb a a = true.
Proof. apply eqb_eq; reflexivity. Qed.

Lemma array_includes_In (a : list t) (x : t) :
  array_includes a x = true <-> In x a.
Proof.
  unfold array_includes; rewrite existsb_exists; split.
  - intros (y & Hy & E); apply eqb_eq in E; subst; assumption.
  - intros H; exists x; split; [assumption | apply eqb_refl].
Qed.

Lemma array_includes_app (a b : list t) (x : t) :
  array_includes (a ++ b) x = array_includes a x || array_includes b x.
Proof. unfold array_includes; apply existsb_app. Qed.

(** A one-letter string occurs in [s] exactly when the letter does. *)
Lemma includes_letter (s : t) (ch : code_unit) :
  includes s [ch] = true <-> In ch s.
Proof.
  induction s as [|y s IH]; simpl.
  - split; [discriminate | tauto].
  - rewrite orb_true_iff, IH, andb_true_iff, Z.eqb_eq.
    split.
    + intros [[E _] | H]; [left; symmetry; exact E | right; exact H].
    + intros [E | H]; [left; split; [symmetry; exact E | ] | right; exact H].
      destruct s; reflexivity.
Qed.

(** Upper-casing a keyboard letter and lower-casing it again gives the
    letter back: the handler reads the letter the button was made from. *)
Lemma key_text (ch : code_unit) :
  App.onKeyboard ch = true -> toLowerCase (toUpperCase [ch]) = [ch].
Proof.
  unfold App.onKeyboard; intros H.
  apply existsb_exists in H as (x & Hin & E).
  apply Z.eqb_eq in E; subst x.
  cbv in Hin.
  repeat (destruct Hin as [<- | Hin]; [reflexivity | ]).
  contradiction.
Qed.

End StringFacts.

(* ===================================================================== *)
(** ** Properties of the game client *)
(* ===================================================================== *)

Section ClientFacts.

Import App.

(** On mount the effects run once and call no setter. *)
Lemma mount_runs_no_setter :
  languageEffect initialState = [] /\ winEffect initialState = [].
Proof. split; reflexivity. Qed.

Lemma run_reachable (events : list event) (c : Component) :
  reachable c -> reachable (run events c).
Proof.
  revert c; induction events as [|e events IH]; intros c R; [exact R | ].
  apply (IH (step c e)). constructor. exact R.
Qed.

Lemma hasWon_allGuessed (s : State) : hasWon s = true <-> allGuessed s.
Proof.
  unfold hasWon, allGuessed, JsString.split.
  rewrite forallb_forall; split.
  - intros H ch Hch. apply array_includes_In, H, in_map_iff.
    exists ch; auto.
  - intros H x Hx. apply in_map_iff in Hx as (ch & <- & Hch).
    apply array_includes_In, H, Hch.
Qed.

(** What pressing a key of the keyboard does, in one equation. *)
Lemma pressKey_eq (letter : JsString.code_unit) (c : Component) :
  onKeyboard letter = true ->
  pressKey letter c =
    if gameOver (ui c) || array_includes (guessedLetters (ui c)) [letter]
    then c
    else
      let s := ui c in
      let s1 := mkState (currentWord s) (guessedLetters s ++ [[letter]])
                  (winGame s)
                  (if JsString.includes (currentWord s) [letter]
                   then wrongAttemps s else S (wrongAttemps s))
                  (language s) in
      mkComponent
        (mkState (currentWord s1) (guessedLetters s1)
           (winGame s || hasWon s1) (wrongAttemps s1) (language s1))
        (inFlight c).
Proof.
  intros K. unfold pressKey, checkGuessedLetter.
  rewrite (key_text _ K).
  destruct c as [[w g win n l] fl]; simpl.
  destruct (gameOver _) eqn:G; simpl; [reflexivity | ].
  destruct (array_includes g [letter]) eqn:I; simpl.
  - unfold dispatch; simpl.
    destruct l; simpl; rewrite ?eqb_refl; reflexivity.
  - unfold dispatch, winEffect; simpl.
    assert (L : sameLanguage l l = true)
      by (destruct l; simpl; rewrite ?eqb_refl; reflexivity).
    destruct (JsString.includes w [letter]); simpl; rewrite L; simpl;
      match goal with
      | |- perform (if ?h then _ else _) _ = _ =>
          destruct h eqn:E;
          match goal with
          | |- context [orb win (hasWon ?s)] =>
              assert (E' : hasWon s = _) by exact E; rewrite E'
          end
      end;
      simpl; rewrite ?orb_true_r, ?orb_false_r; reflexivity.
Qed.

End ClientFacts.

Section GameProperties.

Import App Scenario.

Lemma winAgrees_bool (s : State) : winAgrees s <-> winGame s = hasWon s.
Proof.
  unfold winAgrees; rewrite <- hasWon_allGuessed.
  destruct (winGame s), (hasWon s); split; intros H; try reflexivity;
    try discriminate; try (split; intros; congruence);
    destruct H as [H1 H2];
    first [ specialize (H1 eq_refl); congruence
          | specialize (H2 eq_refl); congruence ].
Qed.

(** Guessing more letters keeps a covered word covered. *)
Lemma hasWon_mono (w : JsString.t) (g g' : list JsString.t) win win' n n' l l' :
  hasWon (mkState w g win n l) = true ->
  hasWon (mkState w (g ++ g') win' n' l') = true.
Proof.
  unfold hasWon; simpl; rewrite !forallb_forall.
  intros H x Hx. rewrite array_includes_app, (H x Hx). reflexivity.
Qed.

Lemma step_key_keeps_agreement (c : Component) (k : JsString.code_unit) :
  winAgrees (ui c) -> winAgrees (ui (step c (ClickKey k))).
Proof.
  intros A. unfold step.
  destruct (language (ui c)) eqn:L; [ | exact A].
  destruct (onKeyboard k) eqn:K; [ | exact A].
  rewrite (pressKey_eq _ _ K).
  destruct (gameOver (ui c) || array_includes (guessedLetters (ui c)) [k]);
    [exact A | ].
  apply winAgrees_bool in A. apply winAgrees_bool.
  destruct c as [[w g win n l] fl]; simpl in *.
  destruct win; simpl.
  - symmetry. symmetry in A.
    exact (hasWon_mono w g [[k]] true _ n _ l _ A).
  - reflexivity.
Qed.

Lemma guesses_cons (k : JsString.code_unit) keys (c : Component) :
  guesses (k :: keys) c = guesses keys (step c (ClickKey k)).
Proof. reflexivity. Qed.

(** A game that starts on a word with at least one letter, with no
    letter guessed and the flag down, starts in agreement. *)
Lemma fresh_game_agrees (w : JsString.t) n l :
  w <> [] -> winAgrees (mkState w [] false n l).
Proof.
  intros Hw. apply winAgrees_bool. destruct w; [contradiction | reflexivity].
Qed.

(** C1, as the code has it: guesses keep the agreement of the win flag
    with the guessed letters. From any state in which the flag is true if
    and only if every character of the target word has been guessed,
    every sequence of guesses leads to a state in which the flag is again
    true if and only if every character of the target word has been
    guessed. *)
Theorem win_flag_invariant (c : Component) (keys : list JsString.code_unit) :
  winAgrees (ui c) -> winAgrees (ui (guesses keys c)).
Proof.
  revert c; induction keys as [|k keys IH]; intros c A.
  - exact A.
  - rewrite guesses_cons. apply IH, step_key_keeps_agreement, A.
Qed.

Lemma win_flag_invariant_witness :
  winAgrees (ui (freshGame "cat")) /\
  winAgrees (ui (guesses (JsString.lit "cat") (freshGame "cat"))).
Proof.
  assert (A : winAgrees (ui (freshGame "cat")))
    by (apply winAgrees_bool; reflexivity).
  split; [exact A | apply (win_flag_invariant _ _ A)].
Defined.

(** C1, as stated, fails: a letter guessed while the word is still on its
    way stays guessed when the word arrives, and the arrival does not run
    the win check. With the word [a] every character is then guessed,
    the flag is false, and guessing [a] again changes nothing. *)
Lemma win_flag_stale_after_early_guess :
  reachable earlyGuess /\
  currentWord (ui earlyGuess) = JsString.lit "a" /\
  guessedLetters (ui earlyGuess) = [JsString.lit "a"] /\
  winGame (ui earlyGuess) = false /\
  allGuessed (ui earlyGuess) /\
  ~ (winGame (ui earlyGuess) = true <-> allGuessed (ui earlyGuess)).
Proof.
  assert (G : allGuessed (ui earlyGuess))
    by (apply hasWon_allGuessed; reflexivity).
  split; [apply run_reachable, reach_initial | ].
  repeat split; try reflexivity; try exact G.
  intros [_ H]. specialize (H G). discriminate H.
Qed.

(** The agreement is needed at the start of the guesses, also for a word
    on which no letter is guessed: after a reset on the empty word the
    check raises the flag again, and the word that arrives then finds it
    raised. *)
Lemma win_flag_raised_by_reset_on_empty_word :
  reachable resetOnEmptyWord /\
  currentWord (ui resetOnEmptyWord) = JsString.lit "cat" /\
  guessedLetters (ui resetOnEmptyWord) = [] /\
  winGame (ui resetOnEmptyWord) = true.
Proof.
  split; [apply run_reachable, reach_initial | ].
  repeat split; vm_compute; reflexivity.
Qed.

(** In the game view a click on a key is a press of that key. *)
Lemma step_key_in_game_view (c : Component) (letter : JsString.code_unit) :
  language (ui c) <> None -> onKeyboard letter = true ->
  step c (ClickKey letter) = pressKey letter c.
Proof.
  intros L K; unfold step.
  destruct (language (ui c)); [ | contradiction]. rewrite K. reflexivity.
Qed.

(** A miss: an enabled key whose letter is neither guessed nor in the
    word. *)
Lemma pressKey_miss (letter : JsString.code_unit) (c : Component) :
  onKeyboard letter = true ->
  gameOver (ui c) = false ->
  ~ In [letter] (guessedLetters (ui c)) ->
  ~ In letter (currentWord (ui c)) ->
  guessedLetters (ui (pressKey letter c)) = guessedLetters (ui c) ++ [[letter]]
  /\ wrongAttemps (ui (pressKey letter c)) = S (wrongAttemps (ui c))
  /\ currentWord (ui (pressKey letter c)) = currentWord (ui c).
Proof.
  intros K G NG NW. rewrite (pressKey_eq _ _ K), G.
  destruct (array_includes (guessedLetters (ui c)) [letter]) eqn:I.
  { apply array_includes_In in I. contradiction. }
  destruct (JsString.includes (currentWord (ui c)) [letter]) eqn:W.
  { apply includes_letter in W. contradiction. }
  simpl. rewrite W. repeat split.
Qed.

(** C2: a guess changes nothing when the letter is already guessed or the
    game is over; otherwise it appends the letter to the guessed letters
    and adds one to the wrong-attempt count exactly when the letter does
    not occur in the target word. The count never decreases and moves only
    on a miss. *)
Theorem guess_spec (letter : JsString.code_unit) (c : Component) :
  onKeyboard letter = true ->
  let s := ui c in
  let s' := ui (pressKey letter c) in
  (In [letter] (guessedLetters s) \/ gameOver s = true ->
     pressKey letter c = c) /\
  (~ In [letter] (guessedLetters s) -> gameOver s = false ->
     guessedLetters s' = guessedLetters s ++ [[letter]] /\
     (In letter (currentWord s) -> wrongAttemps s' = wrongAttemps s) /\
     (~ In letter (currentWord s) -> wrongAttemps s' = S (wrongAttemps s)) /\
     currentWord s' = currentWord s /\
     language s' = language s /\
     inFlight (pressKey letter c) = inFlight c) /\
  (wrongAttemps s <= wrongAttemps s')%nat /\
  (wrongAttemps s' <> wrongAttemps s -> ~ In letter (currentWord s)).
Proof.
  intros K s s'. subst s s'. rewrite (pressKey_eq _ _ K).
  destruct (gameOver (ui c)) eqn:G; simpl.
  { repeat split; intros; try congruence; try lia. }
  destruct (array_includes (guessedLetters (ui c)) [letter]) eqn:I; simpl.
  { apply array_includes_In in I.
    repeat split; intros; try contradiction; try congruence; try lia. }
  assert (NI : ~ In [letter] (guessedLetters (ui c))).
  { intros H; apply array_includes_In in H; congruence. }
  destruct (JsString.includes (currentWord (ui c)) [letter]) eqn:W.
  - apply includes_letter in W.
    repeat split; intros; try tauto; try congruence; try lia.
    destruct H; [contradiction | discriminate].
  - assert (NW : ~ In letter (currentWord (ui c))).
    { intros H; apply includes_letter in H; congruence. }
    repeat split; intros; try tauto; try congruence; try lia.
    destruct H; [contradiction | discriminate].
Qed.

Lemma guess_spec_witness :
  onKeyboard 120 = true /\
  (wrongAttemps (ui (freshGame "cat")) <=
     wrongAttemps (ui (pressKey 120%Z (freshGame "cat"))))%nat /\
  (wrongAttemps (ui (pressKey 120 (freshGame "cat")))
     <> wrongAttemps (ui (freshGame "cat")) ->
   ~ In 120 (currentWord (ui (freshGame "cat")))).
Proof.
  split; [reflexivity | ].
  apply (guess_spec 120 (freshGame "cat") eq_refl).
Defined.

(** C3: the game-over flag is the win flag or a wrong-attempt count above
    seven. While the flag is down, seven misses leave the game open and
    the eighth miss closes it; so it goes on the word [dog] with the
    eight misses x, y, z, q, j, v, w, k. *)
Theorem gameOver_threshold :
  (forall s, gameOver s = winGame s || (7 <? wrongAttemps s)%nat) /\
  (forall w g n l, gameOver (mkState w g false n l) = true <-> (8 <= n)%nat) /\
  (forall c letter,
      onKeyboard letter = true ->
      winGame (ui c) = false -> wrongAttemps (ui c) = 7%nat ->
      ~ In [letter] (guessedLetters (ui c)) ->
      ~ In letter (currentWord (ui c)) ->
      gameOver (ui c) = false /\
      wrongAttemps (ui (pressKey letter c)) = 8%nat /\
      gameOver (ui (pressKey letter c)) = true) /\
  (let seven := guesses (JsString.lit "xyzqjvw") (freshGame "dog") in
   let eight := guesses (JsString.lit "xyzqjvwk") (freshGame "dog") in
   wrongAttemps (ui seven) = 7%nat /\ gameOver (ui seven) = false /\
   wrongAttemps (ui eight) = 8%nat /\ gameOver (ui eight) = true).
Proof.
  split; [reflexivity | ].
  split.
  { intros w g n l; unfold gameOver; simpl.
    rewrite Nat.ltb_lt. lia. }
  split; [ | repeat split; reflexivity].
  intros c letter K W N NG NW.
  assert (G : gameOver (ui c) = false).
  { unfold gameOver; rewrite W, N; reflexivity. }
  destruct (pressKey_miss letter c K G NG NW) as (_ & Hw & _).
  rewrite N in Hw.
  repeat split; try assumption.
  unfold gameOver; rewrite Hw. apply orb_true_r.
Qed.

(** The guard against guesses after the end is the [disabled] attribute of
    the buttons: the handler on its own would still record the letter. *)
Lemma handler_has_no_game_over_check :
  gameOver (ui wonCat) = true /\
  exists f g,
    checkGuessedLetter (JsString.lit "Z") (ui wonCat)
    = [setGuessedLetters f; setWrongAttemps g].
Proof.
  split; [vm_compute; reflexivity | ].
  eexists; eexists. vm_compute. reflexivity.
Qed.

Lemma step_key_when_over (c : Component) (k : JsString.code_unit) :
  gameOver (ui c) = true -> step c (ClickKey k) = c.
Proof.
  intros G; unfold step, pressKey.
  destruct (language (ui c)); [ | reflexivity].
  destruct (onKeyboard k); [ | reflexivity].
  rewrite G; reflexivity.
Qed.

(** C4: once the game is over, no sequence of guesses changes the state:
    the target word, the guessed letters, the wrong-attempt count and the
    win flag all stay as they are. *)
Theorem game_over_is_final (c : Component) (keys : list JsString.code_unit) :
  gameOver (ui c) = true -> guesses keys c = c.
Proof.
  intros G; induction keys as [|k keys IH]; [reflexivity | ].
  rewrite guesses_cons, (step_key_when_over _ _ G). exact IH.
Qed.

Lemma game_over_is_final_witness :
  gameOver (ui wonCat) = true /\
  guesses (JsString.lit "dog") wonCat = wonCat.
Proof.
  split; [reflexivity | apply (game_over_is_final wonCat _ eq_refl)].
Defined.

(** C5, as the code has it: while no language is chosen the keyboard is
    not on screen and no guess can change the state. Once a language is
    chosen the keys are enabled whenever the game is not over, also while
    the target word still is the one-blank placeholder: a guess made then
    joins the guessed letters and counts as a miss. *)
Theorem keyboard_before_word (c : Component) (letter : JsString.code_unit) :
  onKeyboard letter = true ->
  currentWord (ui c) = JsString.lit " " ->
  (language (ui c) = None -> step c (ClickKey letter) = c) /\
  (language (ui c) <> None -> gameOver (ui c) = false ->
   ~ In [letter] (guessedLetters (ui c)) ->
   let s' := ui (step c (ClickKey letter)) in
   guessedLetters s' = guessedLetters (ui c) ++ [[letter]] /\
   wrongAttemps s' = S (wrongAttemps (ui c)) /\
   currentWord s' = JsString.lit " ").
Proof.
  intros K W; split.
  - intros L; unfold step; rewrite L; reflexivity.
  - intros L G NG s'. subst s'. unfold step.
    destruct (language (ui c)); [ | contradiction]. rewrite K.
    assert (NW : ~ In letter (currentWord (ui c))).
    { rewrite W. intros [E | []]. subst letter. discriminate K. }
    destruct (pressKey_miss letter c K G NG NW) as (Hg & Hw & Hc).
    rewrite Hg, Hw, Hc, W. repeat split.
Qed.

Lemma keyboard_before_word_witness :
  onKeyboard 97 = true /\
  currentWord (ui loading) = JsString.lit " " /\
  (language (ui loading) <> None -> gameOver (ui loading) = false ->
   ~ In [97] (guessedLetters (ui loading)) ->
   let s' := ui (step loading (ClickKey 97)) in
   guessedLetters s' = guessedLetters (ui loading) ++ [[97]] /\
   wrongAttemps s' = S (wrongAttemps (ui loading)) /\
   currentWord s' = JsString.lit " ").
Proof.
  split; [reflexivity | split; [reflexivity | ]].
  apply (keyboard_before_word loading 97 eq_refl eq_refl).
Defined.

(** C5, as stated, fails: right after the language is chosen the request
    is in flight and the word is the placeholder, yet the key [a] is
    enabled and pressing it records a guess and a miss. *)
Lemma guess_before_word_arrives :
  reachable loading /\
  currentWord (ui loading) = JsString.lit " " /\
  inFlight loading = [en] /\
  gameOver (ui loading) = false /\
  guessedLetters (ui (step loading (ClickKey 97))) = [JsString.lit "a"] /\
  wrongAttemps (ui (step loading (ClickKey 97))) = 1%nat /\
  step loading (ClickKey 97) <> loading.
Proof.
  split; [apply reach_step, reach_initial | ].
  repeat split; try reflexivity.
  intros H. apply (f_equal (fun c => wrongAttemps (ui c))) in H.
  discriminate H.
Qed.

Lemma nth_error_last {A : Type} (l : list A) (x : A) :
  nth_error (l ++ [x]) (List.length l) = Some x.
Proof. induction l; simpl; auto. Qed.

Lemma removeNth_last {A : Type} (l : list A) (x : A) :
  removeNth (List.length l) (l ++ [x]) = l.
Proof. induction l; simpl; congruence. Qed.

Lemma sameLanguage_refl (l : option JsString.t) : sameLanguage l l = true.
Proof. destruct l; simpl; [apply eqb_refl | reflexivity]. Qed.

(** C6, as the code has it: a call of reset leaves the wrong-attempt
    count at 0 and the guessed letters empty, and the win flag false when
    the word on display is not empty; the word on display stays, and one
    request for a new word is issued. The target word becomes the fetched
    word when that request succeeds; when the request fails, or its body
    has no word to take, the state stays as the reset left it. *)
Theorem resetGame_spec (c : Component) :
  let c1 := dispatch (resetGame (ui c)) c in
  let mine := List.length (inFlight c) in
  wrongAttemps (ui c1) = 0%nat /\
  guessedLetters (ui c1) = [] /\
  (currentWord (ui c) <> [] -> winGame (ui c1) = false) /\
  currentWord (ui c1) = currentWord (ui c) /\
  language (ui c1) = language (ui c) /\
  inFlight c1 = inFlight c ++ [language (ui c)] /\
  (forall data random word,
      extractWord (language (ui c)) data random = Normal word ->
      step c1 (Settle mine (Normal data) random) =
      mkComponent
        (mkState word [] (winGame (ui c1)) 0 (language (ui c)))
        (inFlight c)) /\
  (forall data random e,
      extractWord (language (ui c)) data random = Throw e ->
      step c1 (Settle mine (Normal data) random) =
      mkComponent (ui c1) (inFlight c)) /\
  (forall random e,
      step c1 (Settle mine (Throw e) random) =
      mkComponent (ui c1) (inFlight c)).
Proof.
  destruct c as [[w g win n l] fl].
  unfold dispatch, resetGame; simpl.
  rewrite sameLanguage_refl; simpl.
  unfold winEffect, hasWon; simpl.
  assert (E : forall (A : Type) (a b : A),
             (if forallb (fun letter : JsString.t => array_includes [] letter)
                   (JsString.split w) then a else b) =
             match w with [] => a | _ => b end)
    by (intros; destruct w; reflexivity).
  rewrite E; clear E.
  destruct w as [|ch w]; simpl;
    rewrite nth_error_last, removeNth_last;
    (repeat split; try congruence;
     [ intros data random word X
     | intros data random e X
     | intros random e ];
     unfold getNewWord, dispatch; simpl; rewrite ?X; simpl;
     rewrite ?sameLanguage_refl; reflexivity).
Qed.

(** C6, as stated, fails: New Game is clicked on the won game of [cat]
    and the request fails. The counters are cleared, nothing is left in
    flight, and the target word still is [cat], the word of the game
    before: no word was fetched. *)
Lemma reset_keeps_word_when_fetch_fails :
  reachable resetFailed /\
  gameOver (ui wonCat) = true /\
  currentWord (ui wonCat) = JsString.lit "cat" /\
  resetFailed = mkComponent (mkState (JsString.lit "cat") [] false 0 en) [].
Proof.
  split; [ | repeat split; reflexivity].
  repeat apply run_reachable. apply reach_initial.
Qed.

End GameProperties.

(* ===================================================================== *)
(** ** Word extraction *)
(* ===================================================================== *)

Section Extraction.

Import Binary64 Json App Scenario WordShape.
Local Open Scope Q_scope.

(** *** One rounding *)









(** Known values: three times the binary64 value nearest to 0.1 is a tie
    and rounds up to the even significand (0.30000000000000004); half the
    smallest subnormal is a tie and rounds to zero, three halves of it to
    twice it; twice [2^1023] overflows. *)
Lemma round64_samples :
  mul (Finite (3602879701896397 # 36028797018963968)) (Finite 3)
  = round64 (10808639105689191 # 36028797018963968) /\
  (exists v, round64 (10808639105689191 # 36028797018963968) = Finite v /\
             v == 5404319552844596 # 18014398509481984) /\
  (exists v, round64 (pow2 (-1075)) = Finite v /\ v == 0) /\
  (exists v, round64 (3 * pow2 (-1075)) = Finite v /\ v == pow2 (-1073)) /\
  round64 (2 * pow2 1023) = Infinity false.
Proof.
  split; [reflexivity | ].
  split; [eexists; split; [vm_compute; reflexivity | reflexivity] | ].
  split; [eexists; split; [vm_compute; reflexivity | reflexivity] | ].
  split; [eexists; split; [vm_compute; reflexivity | reflexivity] | ].
  vm_compute; reflexivity.
Qed.

(** *** The draw *)





(** The product is rounded as the engine rounds it: at the binary64 value
    nearest to 0.7 and ten entries the exact product is just below 7, the
    rounded one is 7, and the eighth word is taken. *)
Lemma draw_rounds_to_even :
  Qfloor (sevenTenths * 10) = 6%Z /\
  drawIndex sevenTenths 10 = Integer 7 /\
  extractWord es (spanishBody tenWords) sevenTenths
  = Normal (JsString.lit "wh").
Proof. repeat split; vm_compute; reflexivity. Qed.

(** *** The two shapes *)

Lemma extract_english (fields : list (JsString.t * Json.t))
    (first : JsString.t) (rest : list Json.t) (random : Q) :
  lookup (JsString.lit "word") fields = Val (Array (Str first :: rest)) ->
  extractWord en (Object fields) random
  = Normal (JsString.toLowerCase first).
Proof.
  intros H. unfold extractWord, en.
  change (JsString.eqb (JsString.lit "en") (JsString.lit "en")) with true.
  cbv iota. unfold getProp, bind. rewrite H. reflexivity.
Qed.

Lemma extract_spanish (fields entry : list (JsString.t * Json.t))
    (results : list Json.t) (random : Q) (k : nat) (palabra : JsString.t) :
  lookup (JsString.lit "results") fields = Val (Array results) ->
  drawIndex random (Z.of_nat (List.length results)) = Integer (Z.of_nat k) ->
  nth_error results k = Some (Object entry) ->
  lookup (JsString.lit "Palabra") entry = Val (Str palabra) ->
  extractWord es (Object fields) random
  = Normal (JsString.removeCombiningMarks
              (JsString.normalizeNFD (JsString.toLowerCase palabra))).
Proof.
  intros R D N P. unfold extractWord, es.
  change (JsString.eqb (JsString.lit "es") (JsString.lit "en")) with false.
  change (JsString.eqb (JsString.lit "es") (JsString.lit "es")) with true.
  cbv iota. unfold getProp at 1. unfold bind at 1. rewrite R.
  unfold getProp at 1.
  change (JsString.eqb (JsString.lit "length") (JsString.lit "length"))
    with true.
  cbv iota. unfold bind at 1.
  fold (drawIndex random (Z.of_nat (List.length results))). rewrite D.
  unfold getElem.
  assert (Z : (Z.of_nat k <? 0)%Z = false) by (apply Z.ltb_ge; lia).
  rewrite Z, Nat2Z.id, N. unfold bind at 1.
  unfold getProp, bind. rewrite P. reflexivity.
Qed.

(** The error body of the proxy holds no word: [getNewWord] throws on it
    in either language and calls no setter. *)
Lemma error_body_sets_no_word (random : Q) :
  getNewWord en (Normal Proxy.errorBody) random = [] /\
  getNewWord es (Normal Proxy.errorBody) random = [].
Proof. split; reflexivity. Qed.


End Extraction.

(* ===================================================================== *)
(** ** Properties of the proxy *)
(* ===================================================================== *)

Section ProxyProperties.

Import Proxy Scenario.
Local Open Scope string_scope.

Variable env : Env.
Variable upstream : network.

(** The request the handler sends for a value of [lang]. *)
Lemma serve_outbound (q : queryValue) :
  outbound (serve env upstream q)
  = [if isEn (langOf q) then englishRequest env else spanishRequest env].
Proof.
  unfold serve, handler, tryCatch, bindM, fetch, response_json, res_json,
    console_error.
  destruct (isEn (langOf q)); simpl.
  - destruct (upstream (englishRequest env)) as [r | e]; simpl;
      [destruct (json r); reflexivity | reflexivity].
  - destruct (upstream (spanishRequest env)) as [r | e]; simpl;
      [destruct (json r); reflexivity | reflexivity].
Qed.

(** C8: a request without [lang] is served exactly as a request with
    [lang=en]: the same statements run, so the same upstream call is made
    with the same credential and the same reply is sent. *)
Theorem omitted_lang_is_en :
  handler env upstream QUndefined = handler env upstream (QString "en") /\
  serve env upstream QUndefined = serve env upstream (QString "en") /\
  outbound (serve env upstream QUndefined) = [englishRequest env].
Proof.
  split; [reflexivity | split; [reflexivity | apply serve_outbound]].
Qed.

(** C9: the handler makes one upstream call and sends one reply. The
    reply is the upstream body with status 200 when the call resolves and
    its body is JSON; it is status 500 with the fixed error body when the
    call throws or the body is not JSON. *)
Theorem proxy_reply (q : queryValue) :
  let fx := serve env upstream q in
  let r := if isEn (langOf q) then englishRequest env
           else spanishRequest env in
  outbound fx = [r] /\
  (forall resp data,
      upstream r = Normal resp -> json resp = Normal data ->
      replies fx = [mkReply 200 data] /\ console fx = []) /\
  (forall e,
      upstream r = Throw e ->
      replies fx = [mkReply 500 errorBody] /\ console fx = [e]) /\
  (forall resp e,
      upstream r = Normal resp -> json resp = Throw e ->
      replies fx = [mkReply 500 errorBody] /\ console fx = [e]) /\
  (exists one, replies fx = [one] /\
               (status one = 200%nat \/
                status one = 500%nat /\ body one = errorBody)).
Proof.
  intros fx r. split; [apply serve_outbound | ].
  subst fx. unfold serve, handler, tryCatch, bindM, fetch, response_json,
    res_json, console_error.
  fold r. destruct (isEn (langOf q)); subst r; simpl;
    match goal with
    | |- context [upstream ?x] =>
        destruct (upstream x) as [resp | e] eqn:U; simpl;
        [destruct (json resp) as [data | e] eqn:J; simpl | ]
    end;
    repeat split; intros; try congruence;
    try (match goal with
         | H : Normal _ = Normal _ |- _ => injection H as <-
         end; split; congruence);
    eexists; split; try reflexivity; simpl; auto.
Qed.

(** C10, as the code has it: every value of [lang] that is truthy and is
    not the string [en] (the value [fr], say) is sent to the Spanish
    provider with the bearer token; a parameter that is absent or empty
    goes to the English provider, as the value [en] does. *)
Theorem lang_routing (q : queryValue) :
  truthy q = true -> q <> QString "en" ->
  outbound (serve env upstream q) = [spanishRequest env] /\
  headers (spanishRequest env)
  = [("Authorization", Some ("Bearer " ++ match SPANISH_API_KEY env with
                                          | Some k => k
                                          | None => "undefined"
                                          end))] /\
  (forall q', truthy q' = false \/ q' = QString "en" ->
              outbound (serve env upstream q') = [englishRequest env]).
Proof.
  intros T NE. rewrite serve_outbound. repeat split.
  - unfold langOf; rewrite T.
    destruct q as [ | s | | ]; try reflexivity.
    simpl. destruct (String.eqb s "en") eqn:E; [ | reflexivity].
    apply String.eqb_eq in E. subst s. contradiction.
  - intros q' [F | ->]; rewrite serve_outbound; [ | reflexivity].
    unfold langOf; rewrite F. reflexivity.
Qed.

End ProxyProperties.

Section ProxyExamples.

Import Proxy Scenario.
Local Open Scope string_scope.

Lemma lang_routing_witness :
  truthy (QString "fr") = true /\ QString "fr" <> QString "en" /\
  outbound (serve sampleEnv deadNetwork (QString "fr"))
  = [spanishRequest sampleEnv].
Proof.
  assert (NE : QString "fr" <> QString "en") by discriminate.
  split; [reflexivity | split; [exact NE | ]].
  apply (lang_routing sampleEnv deadNetwork (QString "fr") eq_refl NE).
Defined.

(** C10, as stated, fails: the value of [?lang=] is the empty string,
    which is not the string [en] and is not absent, and the request goes
    to the English provider with the API key header, not to the Spanish
    one. *)
Lemma empty_lang_goes_to_english :
  QString EmptyString <> QString "en" /\
  QString EmptyString <> QUndefined /\
  outbound (serve sampleEnv deadNetwork (QString EmptyString))
  = [englishRequest sampleEnv] /\
  outbound (serve sampleEnv deadNetwork (QString EmptyString))
  <> [spanishRequest sampleEnv].
Proof. repeat split; try discriminate; reflexivity. Qed.

End ProxyExamples.

(* ===================================================================== *)
(** ** Event turns, one handler at a time *)
(* ===================================================================== *)

Section Turns.

Import App.

Lemma dispatch_nothing (c : Component) : dispatch [] c = c.
Proof.
  unfold dispatch; simpl. rewrite sameLanguage_refl. destruct c; reflexivity.
Qed.

Lemma dispatch_setCurrentWord (word : JsString.t) (c : Component) :
  dispatch [setCurrentWord word] c
  = mkComponent (mkState word (guessedLetters (ui c)) (winGame (ui c))
                   (wrongAttemps (ui c)) (language (ui c))) (inFlight c).
Proof.
  unfold dispatch; simpl. rewrite sameLanguage_refl. reflexivity.
Qed.

Lemma getNewWord_cases lang body random :
  getNewWord lang body random = [] \/
  exists word, getNewWord lang body random = [setCurrentWord word].
Proof.
  unfold getNewWord.
  destruct (bind body _) as [word | e]; [right; exists word | left]; reflexivity.
Qed.

(** A settled request is taken off the list; the only setter that can run
    is [setCurrentWord]. *)
Lemma step_settle (c : Component) k body random lang :
  nth_error (inFlight c) k = Some lang ->
  step c (Settle k body random)
  = mkComponent
      (mkState
         match getNewWord lang body random with
         | setCurrentWord word :: _ => word
         | _ => currentWord (ui c)
         end
         (guessedLetters (ui c)) (winGame (ui c)) (wrongAttemps (ui c))
         (language (ui c)))
      (removeNth k (inFlight c)).
Proof.
  intros N. unfold step. rewrite N.
  destruct (getNewWord_cases lang body random) as [E | [word E]]; rewrite E.
  - rewrite dispatch_nothing. destruct c as [[w g win n l] fl]; reflexivity.
  - rewrite dispatch_setCurrentWord. reflexivity.
Qed.

(** Choosing a language stores it and issues the first request. *)
Lemma dispatch_setLanguage (f : flag) (c : Component) :
  language (ui c) = None ->
  dispatch [setLanguage (flagCode f)] c
  = mkComponent (mkState (currentWord (ui c)) (guessedLetters (ui c))
                   (winGame (ui c)) (wrongAttemps (ui c))
                   (Some (flagCode f)))
                (inFlight c ++ [Some (flagCode f)]).
Proof.
  intros L. unfold dispatch; simpl. rewrite L; simpl. reflexivity.
Qed.

(** New Game: the counters are cleared, the win check runs on the word
    still on display, and one request is added. *)
Lemma dispatch_resetGame (c : Component) :
  dispatch (resetGame (ui c)) c
  = mkComponent
      (mkState (currentWord (ui c)) []
               match currentWord (ui c) with [] => true | _ => false end
               0 (language (ui c)))
      (inFlight c ++ [language (ui c)]).
Proof.
  destruct c as [[w g win n l] fl].
  unfold dispatch, resetGame; simpl.
  rewrite sameLanguage_refl; simpl.
  unfold winEffect, hasWon; simpl.
  destruct w; reflexivity.
Qed.

Lemma removeNth_Forall {A : Type} (P : A -> Prop) (k : nat) (l : list A) :
  Forall P l -> Forall P (removeNth k l).
Proof.
  intros H; revert k; induction H as [|x l Hx Hl IH]; intros k.
  - destruct k; constructor.
  - destruct k; simpl; [exact Hl | constructor; [exact Hx | apply IH]].
Qed.

End Turns.

(* ===================================================================== *)
(** ** Invariants of the component *)
(* ===================================================================== *)

Section Invariants.

Import App Invariant.

(** A click on a key either changes nothing or records the letter. *)
Lemma step_key_cases (c : Component) (k : JsString.code_unit) :
  step c (ClickKey k) = c \/
  (language (ui c) <> None /\ onKeyboard k = true /\
   gameOver (ui c) = false /\ ~ In [k] (guessedLetters (ui c)) /\
   step c (ClickKey k)
   = mkComponent
       (mkState (currentWord (ui c)) (guessedLetters (ui c) ++ [[k]])
          (winGame (ui c)
           || hasWon (mkState (currentWord (ui c))
                        (guessedLetters (ui c) ++ [[k]]) (winGame (ui c))
                        (if JsString.includes (currentWord (ui c)) [k]
                         then wrongAttemps (ui c)
                         else S (wrongAttemps (ui c)))
                        (language (ui c))))
          (if JsString.includes (currentWord (ui c)) [k]
           then wrongAttemps (ui c) else S (wrongAttemps (ui c)))
          (language (ui c)))
       (inFlight c)).
Proof.
  unfold step.
  destruct (language (ui c)) eqn:L; [ | left; reflexivity].
  destruct (onKeyboard k) eqn:K; [ | left; reflexivity].
  rewrite (pressKey_eq _ _ K).
  destruct (gameOver (ui c)) eqn:G; [left; reflexivity | ].
  destruct (array_includes (guessedLetters (ui c)) [k]) eqn:I;
    [left; reflexivity | ].
  right. split; [discriminate | ]. split; [reflexivity | ].
  split; [reflexivity | ]. split.
  - intros H. apply array_includes_In in H. congruence.
  - simpl. rewrite ?L. reflexivity.
Qed.

Lemma gameOver_false (s : State) :
  gameOver s = false -> winGame s = false /\ (wrongAttemps s <= 7)%nat.
Proof.
  unfold gameOver; intros H. apply orb_false_iff in H as [W N].
  apply Nat.ltb_ge in N. split; assumption.
Qed.

Lemma guessedTidy_key (s : State) (k : JsString.code_unit) win n :
  guessedTidy s -> onKeyboard k = true -> ~ In [k] (guessedLetters s) ->
  guessedTidy (mkState (currentWord s) (guessedLetters s ++ [[k]]) win n
                 (language s)).
Proof.
  intros [ND KL] K NI; split; simpl.
  - apply NoDup_app; [exact ND | repeat constructor; intros [] | ].
    intros x Hx [<- | []]. exact (NI Hx).
  - apply Forall_app; split; [exact KL | repeat constructor; exact K].
Qed.

Lemma step_wellFormed (c : Component) (e : event) :
  wellFormed c -> wellFormed (step c e).
Proof.
  intros W. pose proof W as (B & BL & T & CH & FL & INI).
  destruct e as [f | k | | k body random].
  - (* a flag *)
    unfold step. destruct (language (ui c)) eqn:L; [exact W | ].
    rewrite (dispatch_setLanguage f c L), (INI eq_refl).
    unfold wellFormed, guessedTidy; simpl.
    split; [lia | ]. split; [lia | ].
    split; [split; constructor | ].
    split; [destruct f; [right; right | right; left]; reflexivity | ].
    split; [repeat constructor | discriminate].
  - (* a key *)
    destruct (step_key_cases c k) as [-> | (L & K & G & NI & ->)];
      [exact W | ].
    apply gameOver_false in G as [_ G].
    unfold wellFormed; simpl. rewrite length_app; simpl.
    split; [destruct (JsString.includes _ _); lia | ].
    split; [destruct (JsString.includes _ _); lia | ].
    split; [exact (guessedTidy_key (ui c) k _ _ T K NI) | ].
    split; [exact CH | ]. split; [exact FL | ].
    intros E; contradiction.
  - (* New Game *)
    unfold step. destruct (language (ui c)) eqn:L; [ | exact W].
    destruct (gameOver (ui c)); [ | exact W].
    rewrite dispatch_resetGame.
    unfold wellFormed, guessedTidy; simpl. rewrite L.
    split; [lia | ]. split; [lia | ].
    split; [split; constructor | ].
    split; [exact CH | ].
    split; [ | discriminate].
    apply Forall_app; split; [exact FL | ].
    repeat constructor.
  - (* a response *)
    destruct (nth_error (inFlight c) k) as [lang | ] eqn:N.
    + rewrite (step_settle c k body random lang N).
      unfold wellFormed, guessedTidy; simpl.
      split; [exact B | ]. split; [exact BL | ].
      split; [exact T | ]. split; [exact CH | ].
      split; [apply removeNth_Forall, FL | ].
      intros E. rewrite (INI E) in N. destruct k; discriminate N.
    + unfold step; rewrite N. exact W.
Qed.

Lemma reachable_wellFormed (c : Component) : reachable c -> wellFormed c.
Proof.
  induction 1 as [ | c e R IH].
  - unfold wellFormed, guessedTidy; simpl.
    split; [lia | ]. split; [lia | ]. split; [split; constructor | ].
    split; [left; reflexivity | ]. split; [constructor | reflexivity].
  - apply step_wellFormed, IH.
Qed.

End Invariants.

Section ReachableProperties.

Import App Invariant Scenario Sample.

Lemma midGame_reachable : reachable midGame.
Proof. repeat apply run_reachable. apply reach_initial. Qed.

Lemma keyLetter_on_keyboard (letter : JsString.t) :
  Screen.isKeyLetter letter = true -> In letter (JsString.split alphabet).
Proof.
  intros K. destruct letter as [ | ch [ | ? ?]]; try discriminate K.
  unfold Screen.isKeyLetter, onKeyboard in K.
  apply existsb_exists in K as (x & Hx & E). apply Z.eqb_eq in E; subst x.
  unfold JsString.split. apply in_map_iff. exists ch; auto.
Qed.

(** X1: in every state the component can reach the wrong-attempt count is
    at most 8, and at most the number of guessed letters. *)
Theorem wrong_attempts_bounded (c : Component) :
  reachable c ->
  (wrongAttemps (ui c) <= 8)%nat /\
  (wrongAttemps (ui c) <= List.length (guessedLetters (ui c)))%nat.
Proof.
  intros R. destruct (reachable_wellFormed c R) as (B & BL & _).
  split; assumption.
Qed.

Lemma wrong_attempts_bounded_witness :
  reachable midGame /\
  (wrongAttemps (ui midGame) <= 8)%nat /\
  (wrongAttemps (ui midGame) <= List.length (guessedLetters (ui midGame)))%nat.
Proof.
  split; [exact midGame_reachable | ].
  apply (wrong_attempts_bounded midGame midGame_reachable).
Defined.

(** X2: in every reachable state the guessed letters are pairwise distinct
    one-letter strings of the keyboard alphabet, so there are at most 26 of
    them. *)
Theorem guessed_letters_are_distinct_keys (c : Component) :
  reachable c ->
  NoDup (guessedLetters (ui c)) /\
  Forall (fun letter => exists ch, letter = [ch] /\ onKeyboard ch = true)
         (guessedLetters (ui c)) /\
  (List.length (guessedLetters (ui c)) <= 26)%nat.
Proof.
  intros R. destruct (reachable_wellFormed c R) as (_ & _ & [ND KL] & _).
  split; [exact ND | split].
  - apply Forall_impl with (2 := KL).
    intros [ | ch [ | ? ?]]; simpl; try discriminate.
    intros K; exists ch; auto.
  - change 26%nat with (List.length (JsString.split alphabet)).
    apply NoDup_incl_length; [exact ND | ].
    intros letter H. apply keyLetter_on_keyboard.
    rewrite Forall_forall in KL. apply KL, H.
Qed.

Lemma guessed_letters_are_distinct_keys_witness :
  reachable midGame /\
  NoDup (guessedLetters (ui midGame)) /\
  Forall (fun letter => exists ch, letter = [ch] /\ onKeyboard ch = true)
         (guessedLetters (ui midGame)) /\
  (List.length (guessedLetters (ui midGame)) <= 26)%nat.
Proof.
  split; [exact midGame_reachable | ].
  apply (guessed_letters_are_distinct_keys midGame midGame_reachable).
Defined.

(** X3: in every reachable state [language] is [null], [en] or [es]; every
    waiting [getNewWord] call closed over the language of the state; and
    while [language] is [null] the component still is in its initial
    state, with no request issued. *)
Theorem requests_carry_the_language (c : Component) :
  reachable c ->
  chosen (language (ui c)) /\
  Forall (fun lang => lang = language (ui c)) (inFlight c) /\
  (language (ui c) = None -> c = initial).
Proof.
  intros R. destruct (reachable_wellFormed c R) as (_ & _ & _ & H).
  exact H.
Qed.

Lemma requests_carry_the_language_witness :
  reachable loading /\
  chosen (language (ui loading)) /\
  Forall (fun lang => lang = language (ui loading)) (inFlight loading) /\
  (language (ui loading) = None -> loading = initial).
Proof.
  assert (R : reachable loading) by (apply reach_step, reach_initial).
  split; [exact R | apply (requests_carry_the_language loading R)].
Defined.

Lemma step_keeps_language (c : Component) (e : event) lang :
  language (ui c) = Some lang -> language (ui (step c e)) = Some lang.
Proof.
  intros L. destruct e as [f | k | | k body random].
  - unfold step. rewrite L. exact L.
  - destruct (step_key_cases c k) as [-> | (_ & _ & _ & _ & ->)]; exact L.
  - unfold step. rewrite L. destruct (gameOver (ui c)); [ | exact L].
    rewrite dispatch_resetGame. exact L.
  - destruct (nth_error (inFlight c) k) as [l | ] eqn:N.
    + rewrite (step_settle c k body random l N). exact L.
    + unfold step; rewrite N. exact L.
Qed.

(** X4: once a language is chosen no event changes it: not a second click
    on a flag, not a guess, not New Game, not a response. *)
Theorem language_is_chosen_once (c : Component) (events : list event) lang :
  language (ui c) = Some lang ->
  language (ui (run events c)) = Some lang.
Proof.
  revert c; induction events as [ | e events IH]; intros c L; [exact L | ].
  apply (IH (step c e)), step_keeps_language, L.
Qed.

Lemma language_is_chosen_once_witness :
  language (ui loading) = en /\
  language (ui (run [ClickFlag Spain; ClickKey 97; ClickNewGame] loading)) = en.
Proof.
  split; [reflexivity | ].
  apply (language_is_chosen_once loading _ (JsString.lit "en") eq_refl).
Defined.

(** X5: a response changes nothing but the target word: the guessed
    letters, the wrong-attempt count, the win flag and the language are
    what they were, whatever the body, and one waiting call at most is
    taken off the list. *)
Theorem word_arrival_keeps_guess_state (c : Component) k body random :
  let c' := step c (Settle k body random) in
  guessedLetters (ui c') = guessedLetters (ui c) /\
  wrongAttemps (ui c') = wrongAttemps (ui c) /\
  winGame (ui c') = winGame (ui c) /\
  language (ui c') = language (ui c) /\
  (inFlight c' = removeNth k (inFlight c) \/ c' = c) /\
  (currentWord (ui c') <> currentWord (ui c) ->
   exists lang, nth_error (inFlight c) k = Some lang /\
                getNewWord lang body random
                = [setCurrentWord (currentWord (ui c'))]).
Proof.
  intros c'; subst c'.
  destruct (nth_error (inFlight c) k) as [lang | ] eqn:N.
  - rewrite (step_settle c k body random lang N); simpl.
    repeat split; auto.
    intros D. exists lang; split; [reflexivity | ].
    destruct (getNewWord_cases lang body random) as [E | [word E]];
      rewrite E in *; [contradiction | reflexivity].
  - unfold step; rewrite N. repeat split; auto.
    intros D; contradiction.
Qed.

End ReachableProperties.

(* ===================================================================== *)
(** ** Whole games: sequences of guesses *)
(* ===================================================================== *)

Section Games.

Import App Invariant Scenario Sample.

Lemma guesses_over (c : Component) (keys : list JsString.code_unit) :
  gameOver (ui c) = true -> guesses keys c = c.
Proof.
  intros G; induction keys as [ | k keys IH]; [reflexivity | ].
  rewrite guesses_cons, (step_key_when_over _ _ G). exact IH.
Qed.

Lemma guesses_keep_agreement (c : Component) (keys : list JsString.code_unit) :
  winAgrees (ui c) -> winAgrees (ui (guesses keys c)).
Proof.
  revert c; induction keys as [ | k keys IH]; intros c A; [exact A | ].
  rewrite guesses_cons. apply IH, step_key_keeps_agreement, A.
Qed.

Lemma guesses_reachable (c : Component) (keys : list JsString.code_unit) :
  reachable c -> reachable (guesses keys c).
Proof. apply run_reachable. Qed.

(** Guesses leave the word and the language alone and only add letters. *)
Lemma guesses_extend (keys : list JsString.code_unit) (c : Component) :
  currentWord (ui (guesses keys c)) = currentWord (ui c) /\
  language (ui (guesses keys c)) = language (ui c) /\
  exists more,
    guessedLetters (ui (guesses keys c)) = guessedLetters (ui c) ++ more.
Proof.
  revert c; induction keys as [ | k keys IH]; intros c.
  - repeat split. exists []. symmetry; apply app_nil_r.
  - rewrite guesses_cons.
    destruct (IH (step c (ClickKey k))) as (W & L & more & G).
    rewrite W, L, G.
    destruct (step_key_cases c k) as [-> | (_ & _ & _ & _ & ->)]; simpl.
    + repeat split. exists more; reflexivity.
    + repeat split. exists ([[k]] ++ more). rewrite app_assoc. reflexivity.
Qed.

(** A letter that is not in the word does not help the win check. *)
Lemma hasWon_miss (w : JsString.t) (g : list JsString.t)
    (k : JsString.code_unit) win win' n n' l l' :
  ~ In k w ->
  hasWon (mkState w (g ++ [[k]]) win n l) = hasWon (mkState w g win' n' l').
Proof.
  unfold hasWon, JsString.split; simpl.
  induction w as [ | ch w IH]; intros NK; [reflexivity | ].
  simpl. rewrite IH by (intros H; apply NK; right; exact H).
  rewrite array_includes_app; simpl.
  replace (ch =? k)%Z with false; [rewrite !orb_false_r; reflexivity | ].
  symmetry. apply Z.eqb_neq. intros ->. apply NK; left; reflexivity.
Qed.

(** X6: a word with a character that is on no key cannot be won: from a
    reachable state with the flag down, no sequence of guesses raises the
    win flag, and the word stays what it is. *)
Theorem off_keyboard_word_cannot_be_won (c : Component)
    (keys : list JsString.code_unit) (ch : JsString.code_unit) :
  reachable c -> winGame (ui c) = false ->
  In ch (currentWord (ui c)) -> onKeyboard ch = false ->
  winGame (ui (guesses keys c)) = false /\
  currentWord (ui (guesses keys c)) = currentWord (ui c).
Proof.
  intros R W I O. split; [ | apply guesses_extend].
  revert c R W I; induction keys as [ | k keys IH]; intros c R W I;
    [exact W | ].
  rewrite guesses_cons.
  assert (R1 : reachable (step c (ClickKey k))) by (constructor; exact R).
  destruct (reachable_wellFormed c R) as (_ & _ & [_ KL] & _).
  destruct (step_key_cases c k) as [E | (_ & K & _ & _ & E)];
    rewrite E in *; apply IH; try assumption.
  simpl. rewrite W; simpl.
  destruct (hasWon _) eqn:H; [ | reflexivity].
  apply hasWon_allGuessed in H. specialize (H ch I). simpl in H.
  apply in_app_or in H as [H | [H | []]].
  - rewrite Forall_forall in KL. apply KL in H. simpl in H. congruence.
  - injection H as ->. congruence.
Qed.

Lemma off_keyboard_word_cannot_be_won_witness :
  reachable hyphenGame /\ winGame (ui hyphenGame) = false /\
  In 45 (currentWord (ui hyphenGame)) /\ onKeyboard 45 = false /\
  winGame (ui (guesses alphabet hyphenGame)) = false.
Proof.
  assert (R : reachable hyphenGame)
    by (apply run_reachable, reach_initial).
  assert (I : In 45 (currentWord (ui hyphenGame)))
    by (right; right; left; reflexivity).
  split; [exact R | ]. split; [reflexivity | ]. split; [exact I | ].
  split; [reflexivity | ].
  apply (off_keyboard_word_cannot_be_won hyphenGame alphabet 45
           R eq_refl I eq_refl).
Defined.

End Games.

Section Outcomes.

Import App Invariant Scenario Sample.

(** In the game view a key of the keyboard does what [pressKey_eq] says. *)
Lemma step_key_eq (c : Component) (k : JsString.code_unit) :
  language (ui c) <> None -> onKeyboard k = true ->
  step c (ClickKey k) = pressKey k c.
Proof.
  intros L K. unfold step.
  destruct (language (ui c)); [rewrite K; reflexivity | contradiction].
Qed.

(** An enabled key whose letter is not guessed yet records the letter. *)
Lemma step_key_fresh (c : Component) (k : JsString.code_unit) :
  language (ui c) <> None -> onKeyboard k = true ->
  gameOver (ui c) = false ->
  array_includes (guessedLetters (ui c)) [k] = false ->
  step c (ClickKey k)
  = mkComponent
      (mkState (currentWord (ui c)) (guessedLetters (ui c) ++ [[k]])
         (winGame (ui c)
          || hasWon (mkState (currentWord (ui c))
                       (guessedLetters (ui c) ++ [[k]]) (winGame (ui c))
                       (if JsString.includes (currentWord (ui c)) [k]
                        then wrongAttemps (ui c)
                        else S (wrongAttemps (ui c)))
                       (language (ui c))))
         (if JsString.includes (currentWord (ui c)) [k]
          then wrongAttemps (ui c) else S (wrongAttemps (ui c)))
         (language (ui c)))
      (inFlight c).
Proof.
  intros L K G A.
  rewrite (step_key_eq c k L K), (pressKey_eq _ _ K), G, A. reflexivity.
Qed.

(** Pressing letters of the word, with fewer than eight wrong attempts on
    the count: the count stays, and in the end the game is won or every
    letter pressed is guessed. *)
Lemma guesses_in_word (keys : list JsString.code_unit) (c : Component) :
  language (ui c) <> None ->
  (wrongAttemps (ui c) <= 7)%nat ->
  Forall (fun k => onKeyboard k = true /\ In k (currentWord (ui c))) keys ->
  wrongAttemps (ui (guesses keys c)) = wrongAttemps (ui c) /\
  (winGame (ui (guesses keys c)) = true \/
   forall k, In k keys -> In [k] (guessedLetters (ui (guesses keys c)))).
Proof.
  revert c; induction keys as [ | k keys IH]; intros c L N F.
  - split; [reflexivity | right; intros k []].
  - inversion F as [ | k' keys' [K I] F']; subst.
    rewrite guesses_cons, (step_key_eq c k L K), (pressKey_eq _ _ K).
    destruct (gameOver (ui c)) eqn:G; simpl.
    { (* over with at most seven wrong attempts: won *)
      rewrite (guesses_over c keys G). split; [reflexivity | left].
      unfold gameOver in G. apply orb_true_iff in G as [G | G];
        [exact G | apply Nat.ltb_lt in G; lia]. }
    destruct (array_includes (guessedLetters (ui c)) [k]) eqn:A; simpl.
    { (* guessed before *)
      destruct (IH c L N F') as [W H]. split; [exact W | ].
      destruct H as [H | H]; [left; exact H | right].
      intros k' [<- | Hk]; [ | apply H, Hk].
      destruct (guesses_extend keys c) as (_ & _ & more & E).
      rewrite E. apply in_or_app; left. apply array_includes_In, A. }
    apply includes_letter in I. rewrite I.
    match goal with |- context [guesses keys ?c1] => set (c1' := c1) end.
    destruct (IH c1' L N F') as [W H].
    split; [exact W | ].
    destruct H as [H | H]; [left; exact H | right].
    intros k' [<- | Hk]; [ | apply H, Hk].
    destruct (guesses_extend keys c1') as (_ & _ & more & E).
    rewrite E. apply in_or_app; left. simpl. apply in_or_app; right.
    left; reflexivity.
Qed.

(** X7: a game that is not over, whose flag agrees with the guessed
    letters and whose word is made of keyboard letters, is won by pressing
    the letters of the word in order, with no wrong attempt added. *)
Theorem spelling_the_word_wins (c : Component) :
  language (ui c) <> None -> gameOver (ui c) = false ->
  winAgrees (ui c) ->
  Forall (fun ch => onKeyboard ch = true) (currentWord (ui c)) ->
  let c' := guesses (currentWord (ui c)) c in
  winGame (ui c') = true /\
  wrongAttemps (ui c') = wrongAttemps (ui c) /\
  gameOver (ui c') = true.
Proof.
  intros L G A F c'. subst c'.
  apply gameOver_false in G as [_ N].
  assert (F' : Forall (fun k => onKeyboard k = true /\
                                In k (currentWord (ui c)))
                      (currentWord (ui c))).
  { rewrite Forall_forall in *. intros k Hk; split; [apply F, Hk | exact Hk]. }
  destruct (guesses_in_word _ c L N F') as [W H].
  assert (Win : winGame (ui (guesses (currentWord (ui c)) c)) = true).
  { destruct H as [H | H]; [exact H | ].
    apply (guesses_keep_agreement c (currentWord (ui c)) A).
    intros ch Hch.
    destruct (guesses_extend (currentWord (ui c)) c) as (E & _).
    rewrite E in Hch. apply H, Hch. }
  split; [exact Win | split; [exact W | ]].
  unfold gameOver. rewrite Win. reflexivity.
Qed.

Lemma spelling_the_word_wins_witness :
  language (ui midGame) <> None /\ gameOver (ui midGame) = false /\
  winAgrees (ui midGame) /\
  Forall (fun ch => onKeyboard ch = true) (currentWord (ui midGame)) /\
  winGame (ui (guesses (currentWord (ui midGame)) midGame)) = true.
Proof.
  assert (L : language (ui midGame) <> None) by (vm_compute; discriminate).
  assert (G : gameOver (ui midGame) = false) by (vm_compute; reflexivity).
  assert (A : winAgrees (ui midGame))
    by (apply winAgrees_bool; vm_compute; reflexivity).
  assert (F : Forall (fun ch => onKeyboard ch = true)
                     (currentWord (ui midGame)))
    by (vm_compute; repeat constructor).
  split; [exact L | ]. split; [exact G | ]. split; [exact A | ].
  split; [exact F | ].
  destruct (spelling_the_word_wins midGame L G A F) as [W _]. exact W.
Defined.

End Outcomes.

Section Misses.

Import App Invariant Scenario Sample.

Lemma not_allGuessed_hasWon (s : State) :
  ~ allGuessed s <-> hasWon s = false.
Proof.
  rewrite <- hasWon_allGuessed. destruct (hasWon s); split; intros H.
  - contradiction H; reflexivity.
  - discriminate H.
  - reflexivity.
  - intros H'; discriminate H'.
Qed.

(** X8: wrong letters add up. In a game that is not won and whose word is
    not covered, pressing distinct keyboard letters that are neither in
    the word nor guessed adds each of them to the guessed letters and one
    to the count for each, as long as the count stays within 8; the win
    flag stays down, and the game is over exactly when the count has
    reached 8. *)
Theorem misses_add_up (keys : list JsString.code_unit) (c : Component) :
  language (ui c) <> None ->
  winGame (ui c) = false -> ~ allGuessed (ui c) ->
  NoDup keys ->
  Forall (fun k => onKeyboard k = true /\ ~ In k (currentWord (ui c)) /\
                   ~ In [k] (guessedLetters (ui c))) keys ->
  (wrongAttemps (ui c) + List.length keys <= 8)%nat ->
  let c' := guesses keys c in
  guessedLetters (ui c')
  = guessedLetters (ui c) ++ map (fun k => [k]) keys /\
  wrongAttemps (ui c') = (wrongAttemps (ui c) + List.length keys)%nat /\
  winGame (ui c') = false /\
  (gameOver (ui c') = true <->
   (wrongAttemps (ui c) + List.length keys = 8)%nat).
Proof.
  intros L W NA ND F B c'. subst c'.
  apply not_allGuessed_hasWon in NA.
  revert c L W NA F B; induction ND as [ | k keys NK ND IH];
    intros c L W NA F B.
  - change (guesses [] c) with c.
    simpl. rewrite app_nil_r, Nat.add_0_r. repeat split; auto.
    + unfold gameOver; rewrite W; simpl. intros H.
      apply Nat.ltb_lt in H. simpl in B. lia.
    + intros E. unfold gameOver. rewrite W, E. reflexivity.
  - inversion F as [ | k' keys' (K & NW & NG) F']; subst.
    simpl in B.
    assert (G : gameOver (ui c) = false).
    { unfold gameOver. rewrite W; simpl. apply Nat.ltb_ge. lia. }
    assert (A : array_includes (guessedLetters (ui c)) [k] = false).
    { destruct (array_includes _ _) eqn:A; [ | reflexivity].
      apply array_includes_In in A. contradiction. }
    assert (I : JsString.includes (currentWord (ui c)) [k] = false).
    { destruct (JsString.includes _ _) eqn:I; [ | reflexivity].
      apply includes_letter in I. contradiction. }
    rewrite guesses_cons, (step_key_fresh c k L K G A), I.
    assert (H1 : hasWon
                   (mkState (currentWord (ui c))
                      (guessedLetters (ui c) ++ [[k]]) (winGame (ui c))
                      (S (wrongAttemps (ui c))) (language (ui c))) = false).
    { rewrite <- NA. destruct (ui c) as [w g win n l]; simpl.
      apply hasWon_miss. exact NW. }
    rewrite H1, W. simpl.
    match goal with |- context [guesses keys ?c1] => set (c1' := c1) end.
    assert (F1 : Forall (fun k0 => onKeyboard k0 = true /\
                                   ~ In k0 (currentWord (ui c1')) /\
                                   ~ In [k0] (guessedLetters (ui c1'))) keys).
    { rewrite Forall_forall in *. intros k0 Hk0.
      destruct (F' k0 Hk0) as (K0 & NW0 & NG0).
      repeat split; try assumption. simpl.
      intros H. apply in_app_or in H as [H | [H | []]]; [contradiction | ].
      injection H as ->. contradiction. }
    assert (NA1 : hasWon (ui c1') = false).
    { simpl. rewrite <- H1. rewrite W.
      destruct (ui c) as [w g win n l]; reflexivity. }
    destruct (IH c1' L eq_refl NA1 F1) as (Hg & Hw & Hwin & Hover).
    { simpl. lia. }
    rewrite Hg, Hw, Hwin. simpl.
    rewrite <- app_assoc. simpl.
    repeat split; try lia.
    + intros H. apply Hover in H. simpl in H. lia.
    + intros H. apply Hover. simpl. lia.
Qed.

Lemma misses_add_up_witness :
  language (ui dogGame) <> None /\ winGame (ui dogGame) = false /\
  ~ allGuessed (ui dogGame) /\ NoDup eightWrong /\
  Forall (fun k => onKeyboard k = true /\
                   ~ In k (currentWord (ui dogGame)) /\
                   ~ In [k] (guessedLetters (ui dogGame))) eightWrong /\
  (wrongAttemps (ui dogGame) + List.length eightWrong <= 8)%nat /\
  wrongAttemps (ui (guesses eightWrong dogGame)) = 8%nat /\
  winGame (ui (guesses eightWrong dogGame)) = false.
Proof.
  assert (L : language (ui dogGame) <> None) by (vm_compute; discriminate).
  assert (W : winGame (ui dogGame) = false) by (vm_compute; reflexivity).
  assert (NA : ~ allGuessed (ui dogGame))
    by (apply not_allGuessed_hasWon; vm_compute; reflexivity).
  assert (ND : NoDup eightWrong).
  { vm_compute. repeat (constructor; [simpl; intuition discriminate | ]).
    constructor. }
  assert (F : Forall (fun k => onKeyboard k = true /\
                               ~ In k (currentWord (ui dogGame)) /\
                               ~ In [k] (guessedLetters (ui dogGame)))
                     eightWrong).
  { vm_compute. repeat (constructor;
      [split; [reflexivity | split; intuition discriminate] | ]).
    constructor. }
  assert (B : (wrongAttemps (ui dogGame) + List.length eightWrong <= 8)%nat)
    by (vm_compute; lia).
  destruct (misses_add_up eightWrong dogGame L W NA ND F B)
    as (_ & Hw & Hwin & _).
  repeat split; try assumption.
Defined.

Lemma step_key_not_won_and_lost (c : Component) (k : JsString.code_unit) :
  winAgrees (ui c) ->
  Screen.winBanner (ui c) && Screen.loseBanner (ui c) = false ->
  Screen.winBanner (ui (step c (ClickKey k)))
  && Screen.loseBanner (ui (step c (ClickKey k))) = false.
Proof.
  intros A X.
  destruct (step_key_cases c k) as [-> | (_ & _ & G & _ & ->)]; [exact X | ].
  apply gameOver_false in G as [W N].
  apply winAgrees_bool in A. rewrite W in A.
  unfold Screen.winBanner, Screen.loseBanner; simpl.
  destruct (JsString.includes (currentWord (ui c)) [k]) eqn:I.
  - replace (7 <? wrongAttemps (ui c))%nat with false;
      [apply andb_false_r | symmetry; apply Nat.ltb_ge; exact N].
  - assert (NW : ~ In k (currentWord (ui c))).
    { intros H. apply includes_letter in H. congruence. }
    rewrite W; simpl.
    destruct (ui c) as [w g win n l]; simpl in *.
    match goal with
    | |- context [hasWon ?s] =>
        replace (hasWon s) with (hasWon (mkState w g win n l))
          by (symmetry; apply hasWon_miss; exact NW)
    end.
    rewrite <- A. reflexivity.
Qed.

(** X9: a game does not end won and lost at once: when the win flag agrees
    with the guessed letters and the two status banners are not both up,
    no sequence of guesses puts both up. *)
Theorem never_won_and_lost (c : Component) (keys : list JsString.code_unit) :
  winAgrees (ui c) ->
  Screen.winBanner (ui c) && Screen.loseBanner (ui c) = false ->
  Screen.winBanner (ui (guesses keys c))
  && Screen.loseBanner (ui (guesses keys c)) = false.
Proof.
  revert c; induction keys as [ | k keys IH]; intros c A X; [exact X | ].
  rewrite guesses_cons. apply IH.
  - apply step_key_keeps_agreement, A.
  - apply step_key_not_won_and_lost; assumption.
Qed.

Lemma never_won_and_lost_witness :
  winAgrees (ui midGame) /\
  Screen.winBanner (ui midGame) && Screen.loseBanner (ui midGame) = false /\
  Screen.winBanner (ui (guesses alphabet midGame))
  && Screen.loseBanner (ui (guesses alphabet midGame)) = false.
Proof.
  assert (A : winAgrees (ui midGame))
    by (apply winAgrees_bool; vm_compute; reflexivity).
  assert (X : Screen.winBanner (ui midGame)
              && Screen.loseBanner (ui midGame) = false)
    by (vm_compute; reflexivity).
  split; [exact A | split; [exact X | ]].
  apply (never_won_and_lost midGame alphabet A X).
Defined.

Lemma step_key_counts_misses (c : Component) (k : JsString.code_unit) :
  wrongAttemps (ui c) = List.length (Screen.misses (ui c)) ->
  wrongAttemps (ui (step c (ClickKey k)))
  = List.length (Screen.misses (ui (step c (ClickKey k)))).
Proof.
  intros E.
  destruct (step_key_cases c k) as [-> | (_ & _ & _ & _ & ->)]; [exact E | ].
  unfold Screen.misses in *; simpl.
  rewrite filter_app, length_app; simpl.
  destruct (JsString.includes (currentWord (ui c)) [k]); simpl; lia.
Qed.

(** X10: the wrong-attempt count is the number of guessed letters that are
    not in the word: when it is so in a state, it is so after every
    sequence of guesses. *)
Theorem wrong_attempts_count_misses (c : Component)
    (keys : list JsString.code_unit) :
  wrongAttemps (ui c) = List.length (Screen.misses (ui c)) ->
  wrongAttemps (ui (guesses keys c))
  = List.length (Screen.misses (ui (guesses keys c))).
Proof.
  revert c; induction keys as [ | k keys IH]; intros c E; [exact E | ].
  rewrite guesses_cons. apply IH, step_key_counts_misses, E.
Qed.

Lemma wrong_attempts_count_misses_witness :
  wrongAttemps (ui (freshGame "cat"))
  = List.length (Screen.misses (ui (freshGame "cat"))) /\
  wrongAttemps (ui midGame) = List.length (Screen.misses (ui midGame)).
Proof.
  assert (E : wrongAttemps (ui (freshGame "cat"))
              = List.length (Screen.misses (ui (freshGame "cat"))))
    by (vm_compute; reflexivity).
  split; [exact E | ].
  apply (wrong_attempts_count_misses (freshGame "cat") (JsString.lit "cxaz") E).
Defined.

End Misses.

(* ===================================================================== *)
(** ** What is on screen *)
(* ===================================================================== *)

Section ScreenFacts.

Import App Invariant Scenario Sample Screen.

Lemma toUpperCase_letter_not_empty (ch : JsString.code_unit) :
  JsString.toUpperCase [ch] <> [].
Proof.
  unfold JsString.toUpperCase, JsString.upper_unit; simpl.
  repeat match goal with
         | |- context [if ?b then _ else _] => destruct b
         end; discriminate.
Qed.

Lemma boxes_filled_iff (g : list JsString.t) (w : JsString.t) :
  Forall (fun box => box <> [])
    (map (fun letter => if array_includes g letter
                        then JsString.toUpperCase letter else [])
         (JsString.split w))
  <-> forallb (fun letter => array_includes g letter) (JsString.split w)
      = true.
Proof.
  induction w as [ | ch w IH]; simpl.
  - split; [reflexivity | constructor].
  - rewrite andb_true_iff, <- IH. split.
    + intros H; inversion H as [ | ? ? Hb Hr]; subst.
      split; [ | exact Hr].
      destruct (array_includes g [ch]); [reflexivity | contradiction].
    + intros [E H]. constructor; [ | exact H].
      rewrite E. apply toUpperCase_letter_not_empty.
Qed.

(** X11: the word boxes. While the word is the placeholder nothing is
    shown; otherwise there is one box per character of the word, the box
    of a guessed character holds its capital letter and the others are
    empty, and every box is filled exactly when the win check passes. *)
Theorem displayed_word_boxes (s : State) :
  (currentWord s = JsString.lit " " -> displayedWord s = None) /\
  (currentWord s <> JsString.lit " " ->
   exists boxes,
     displayedWord s = Some boxes /\
     List.length boxes = List.length (currentWord s) /\
     (forall i ch, nth_error (currentWord s) i = Some ch ->
        nth_error boxes i
        = Some (if array_includes (guessedLetters s) [ch]
                then JsString.toUpperCase [ch] else [])) /\
     (Forall (fun box => box <> []) boxes <-> hasWon s = true)).
Proof.
  unfold displayedWord. split.
  - intros ->. reflexivity.
  - intros NE.
    destruct (JsString.eqb (currentWord s) (JsString.lit " ")) eqn:E.
    { apply eqb_eq in E. contradiction. }
    simpl. eexists. split; [reflexivity | ].
    unfold JsString.split. rewrite !length_map.
    split; [reflexivity | split].
    + intros i ch H. rewrite map_map.
      rewrite nth_error_map, H. reflexivity.
    + apply boxes_filled_iff.
Qed.

Lemma filter_map_length {A B : Type} (p : B -> bool) (f : A -> B) (l : list A) :
  List.length (filter p (map f l))
  = List.length (filter (fun x => p (f x)) l).
Proof.
  induction l as [ | x l IH]; simpl; [reflexivity | ].
  destruct (p (f x)); simpl; rewrite IH; reflexivity.
Qed.

Lemma keys_are_distinct : NoDup (JsString.split alphabet).
Proof.
  assert (E : nodup (list_eq_dec Z.eq_dec) (JsString.split alphabet)
              = JsString.split alphabet) by (vm_compute; reflexivity).
  rewrite <- E. apply NoDup_nodup.
Qed.

Lemma key_is_lower_case (letter : JsString.t) :
  In letter (JsString.split alphabet) -> JsString.toLowerCase letter = letter.
Proof.
  intros H. cbv in H.
  repeat (destruct H as [<- | H]; [reflexivity | ]).
  contradiction.
Qed.

(** The colour of a key, read off its class. *)
Lemma key_colour (s : State) (letter : JsString.t) :
  In letter (JsString.split alphabet) ->
  isRed (keyButton s letter)
  = array_includes (guessedLetters s) letter
    && negb (JsString.includes (currentWord s) letter) /\
  isGreen (keyButton s letter)
  = array_includes (guessedLetters s) letter
    && JsString.includes (currentWord s) letter.
Proof.
  intros H. unfold isRed, isGreen, keyButton; simpl.
  rewrite (key_is_lower_case _ H).
  destruct (array_includes _ _), (JsString.includes _ _); split; reflexivity.
Qed.

(** Distinct guessed letters of the keyboard are counted once each by the
    keys. *)
Lemma keys_count_guessed (g : list JsString.t) (p : JsString.t -> bool) :
  NoDup g -> Forall (fun letter => isKeyLetter letter = true) g ->
  List.length (filter (fun letter => array_includes g letter && p letter)
                      (JsString.split alphabet))
  = List.length (filter p g).
Proof.
  intros ND KL. apply Permutation_length.
  apply NoDup_Permutation.
  - apply NoDup_filter, keys_are_distinct.
  - apply NoDup_filter, ND.
  - intros x. rewrite !filter_In, andb_true_iff, array_includes_In.
    split; [tauto | ]. intros [Hx Hp]. repeat split; try assumption.
    apply keyLetter_on_keyboard. rewrite Forall_forall in KL. apply KL, Hx.
Qed.

Lemma colour_counts (s : State) :
  guessedTidy s ->
  List.length (filter isRed (keyboard s)) = List.length (misses s) /\
  (List.length (filter isRed (keyboard s))
   + List.length (filter isGreen (keyboard s))
   = List.length (guessedLetters s))%nat.
Proof.
  intros [ND KL]. unfold keyboard. rewrite !filter_map_length.
  rewrite (filter_ext_in _
             (fun l => array_includes (guessedLetters s) l
                       && negb (JsString.includes (currentWord s) l)))
    by (intros l H; apply (key_colour s l H)).
  rewrite (filter_ext_in (fun x => isGreen (keyButton s x))
             (fun l => array_includes (guessedLetters s) l
                       && JsString.includes (currentWord s) l))
    by (intros l H; apply (key_colour s l H)).
  rewrite !keys_count_guessed by assumption.
  split; [reflexivity | ].
  clear ND KL. induction (guessedLetters s) as [ | x g IH]; simpl;
    [reflexivity | ].
  destruct (JsString.includes (currentWord s) x); simpl; lia.
Qed.

Lemma guesses_keep_tidy (c : Component) (keys : list JsString.code_unit) :
  guessedTidy (ui c) -> guessedTidy (ui (guesses keys c)).
Proof.
  revert c; induction keys as [ | k keys IH]; intros c T; [exact T | ].
  rewrite guesses_cons. apply IH.
  destruct (step_key_cases c k) as [-> | (_ & K & _ & NI & ->)]; [exact T | ].
  exact (guessedTidy_key (ui c) k _ _ T K NI).
Qed.

(** X12: the colours of the keyboard. In a game whose guesses all came
    after the last reset (so it started with no letter guessed and a count
    of 0), after any sequence of guesses the number of red keys is the
    wrong-attempt count, and the red and green keys together are as many
    as the guessed letters. *)
Theorem red_keys_show_wrong_attempts (c : Component)
    (keys : list JsString.code_unit) :
  guessedLetters (ui c) = [] -> wrongAttemps (ui c) = 0%nat ->
  let s := ui (guesses keys c) in
  List.length (filter isRed (keyboard s)) = wrongAttemps s /\
  (List.length (filter isRed (keyboard s))
   + List.length (filter isGreen (keyboard s))
   = List.length (guessedLetters s))%nat.
Proof.
  intros G W s. subst s.
  assert (T : guessedTidy (ui c))
    by (split; rewrite G; constructor).
  assert (M : wrongAttemps (ui c) = List.length (misses (ui c)))
    by (unfold misses; rewrite G, W; reflexivity).
  destruct (colour_counts _ (guesses_keep_tidy c keys T)) as [R RG].
  split; [ | exact RG].
  rewrite R. symmetry.
  clear T R RG G W. revert c M.
  induction keys as [ | k keys IH]; intros c M; [exact M | ].
  rewrite guesses_cons. apply IH, step_key_counts_misses, M.
Qed.

Lemma red_keys_show_wrong_attempts_witness :
  guessedLetters (ui (freshGame "cat")) = [] /\
  wrongAttemps (ui (freshGame "cat")) = 0%nat /\
  List.length (filter isRed (keyboard (ui midGame))) = wrongAttemps (ui midGame).
Proof.
  assert (G : guessedLetters (ui (freshGame "cat")) = [])
    by (vm_compute; reflexivity).
  assert (W : wrongAttemps (ui (freshGame "cat")) = 0%nat)
    by (vm_compute; reflexivity).
  split; [exact G | split; [exact W | ]].
  destruct (red_keys_show_wrong_attempts (freshGame "cat")
              (JsString.lit "cxaz") G W) as [R _].
  exact R.
Defined.

End ScreenFacts.

Section Lives.

Import App Invariant Scenario Sample Screen.

Variable languages : list programmingLanguage.

Lemma mapIndexed_length {A B : Type} (f : A -> nat -> B) (i : nat) (l : list A) :
  List.length (mapIndexed f i l) = List.length l.
Proof. revert i; induction l; intros i; simpl; [ | rewrite IHl]; reflexivity. Qed.

Lemma mapIndexed_nth {A B : Type} (f : A -> nat -> B) (i j : nat) (l : list A) :
  nth_error (mapIndexed f i l) j
  = option_map (fun x => f x (i + j)%nat) (nth_error l j).
Proof.
  revert i j; induction l as [ | x l IH]; intros i [ | j]; simpl;
    try reflexivity.
  - rewrite Nat.add_0_r. reflexivity.
  - rewrite IH. rewrite Nat.add_succ_r. reflexivity.
Qed.

Lemma lost_from (s : State) (i : nat) (l : list programmingLanguage) :
  List.length
    (filter isLost
       (mapIndexed
          (fun language index =>
             mkTag (name language) (backgroundColor language)
                   (color language)
                   (if (wrongAttemps s <=? index)%nat
                    then EmptyString else "wrong-answer"%string))
          i l))
  = Nat.min (wrongAttemps s - i) (List.length l).
Proof.
  revert i; induction l as [ | x l IH]; intros i; simpl.
  - rewrite Nat.min_0_r. reflexivity.
  - unfold isLost at 1; simpl.
    destruct (wrongAttemps s <=? i)%nat eqn:E; simpl; rewrite IH.
    + apply Nat.leb_le in E. lia.
    + apply Nat.leb_gt in E. lia.
Qed.

(** X13: the life tags. There is one tag per entry of the language list;
    the tag at position [i] is dimmed exactly when [i] is below the
    wrong-attempt count, so the dimmed tags are the first ones and their
    number is the smaller of the count and the length of the list. *)
Theorem lives_lost (s : State) :
  let tags := programmingLanguages languages s in
  List.length tags = List.length languages /\
  (forall i tag, nth_error tags i = Some tag ->
                 isLost tag = (i <? wrongAttemps s)%nat) /\
  List.length (filter isLost tags)
  = Nat.min (wrongAttemps s) (List.length languages).
Proof.
  intros tags; subst tags. unfold programmingLanguages.
  split; [apply mapIndexed_length | split].
  - intros i tag H. rewrite mapIndexed_nth in H.
    destruct (nth_error languages i); [ | discriminate].
    injection H as <-. unfold isLost; simpl.
    destruct (wrongAttemps s <=? i)%nat eqn:E; simpl; symmetry.
    + apply Nat.leb_le in E. apply Nat.ltb_ge. exact E.
    + apply Nat.leb_gt in E. apply Nat.ltb_lt. exact E.
  - rewrite lost_from, Nat.sub_0_r. reflexivity.
Qed.

(** X14: at most eight tags are ever dimmed: in a reachable state a tag
    at position 8 or beyond is not dimmed, so with a list of more than
    eight entries the last ones stay lit even in a lost game. *)
Theorem ninth_life_is_never_lost (c : Component) :
  reachable c ->
  let tags := programmingLanguages languages (ui c) in
  (List.length (filter isLost tags) <= 8)%nat /\
  (forall i tag, (8 <= i)%nat -> nth_error tags i = Some tag ->
                 isLost tag = false).
Proof.
  intros R tags; subst tags.
  destruct (reachable_wellFormed c R) as (B & _).
  unfold programmingLanguages. split.
  - rewrite lost_from. lia.
  - intros i tag I H. rewrite mapIndexed_nth in H.
    destruct (nth_error languages i); [ | discriminate].
    injection H as <-. unfold isLost; simpl.
    replace (wrongAttemps (ui c) <=? i)%nat with true; [reflexivity | ].
    symmetry. apply Nat.leb_le. lia.
Qed.

End Lives.

Section LivesExamples.

Import App Scenario Sample Screen.

Lemma ninth_life_is_never_lost_witness :
  reachable lostDog /\
  (List.length
     (filter isLost (programmingLanguages nineLanguages (ui lostDog)))
   <= 8)%nat.
Proof.
  assert (R : reachable lostDog)
    by (repeat apply run_reachable; apply reach_initial).
  split; [exact R | ].
  destruct (ninth_life_is_never_lost nineLanguages lostDog R) as [H _].
  exact H.
Defined.

End LivesExamples.

(* ===================================================================== *)
(** ** Confetti *)
(* ===================================================================== *)

Section ConfettiFacts.

Import App Scenario Sample Confetti.

(** [handlerOf] names the handler that [step] runs. *)
Lemma step_handlerOf (c : Component) (e : event) :
  step c e = match handlerOf c e with
             | Some (acts, c0) => dispatch acts c0
             | None => c
             end.
Proof.
  destruct e as [f | k | | k body random]; unfold step, handlerOf, pressKey.
  - destruct (language (ui c)); reflexivity.
  - destruct (language (ui c)); [ | reflexivity].
    destruct (onKeyboard k), (gameOver (ui c)); reflexivity.
  - destruct (language (ui c)); [ | reflexivity].
    destruct (gameOver (ui c)); reflexivity.
  - destruct (nth_error (inFlight c) k); reflexivity.
Qed.

Lemma checkGuessedLetter_keeps_flag (text : JsString.t) (c : Component) :
  winGame (ui (perform (checkGuessedLetter text (ui c)) c)) = winGame (ui c).
Proof.
  unfold checkGuessedLetter.
  destruct (negb (array_includes _ _)); [ | reflexivity].
  destruct (negb (JsString.includes _ _)); reflexivity.
Qed.

Lemma confettiEffect_rise (before after : State) :
  confettiEffect before after
  = if negb (winGame before) && winGame after then 1%nat else 0%nat.
Proof.
  unfold confettiEffect. destruct (winGame before), (winGame after);
    reflexivity.
Qed.

(** On a key press the confetti fires exactly when the press raises the
    win flag. *)
Lemma confetti_on_key (c : Component) (k : JsString.code_unit) :
  confettiOn c (ClickKey k)
  = if negb (winGame (ui c)) && winGame (ui (step c (ClickKey k)))
    then 1%nat else 0%nat.
Proof.
  rewrite step_handlerOf. unfold confettiOn.
  destruct (handlerOf c (ClickKey k)) as [[acts c0] | ] eqn:H.
  - assert (E : c0 = c /\ exists text, acts = checkGuessedLetter text (ui c)).
    { unfold handlerOf in H. destruct (language (ui c)); [ | discriminate].
      destruct (onKeyboard k && negb (gameOver (ui c))); [ | discriminate].
      injection H as <- <-. split; [reflexivity | eexists; reflexivity]. }
    destruct E as [-> [text ->]].
    unfold confettiIn. rewrite !confettiEffect_rise.
    rewrite checkGuessedLetter_keeps_flag.
    destruct (winGame (ui c)); simpl; [reflexivity | ].
    destruct (winGame (ui (dispatch _ c))); reflexivity.
  - destruct (winGame (ui c)); reflexivity.
Qed.

(** X15: over any sequence of guesses the confetti fires once when the
    sequence takes the game from not won to won, and not at all
    otherwise: never twice, and never on a game that was won before. *)
Theorem confetti_fires_once (c : Component) (keys : list JsString.code_unit) :
  confettiDuring (map ClickKey keys) c
  = if negb (winGame (ui c)) && winGame (ui (guesses keys c))
    then 1%nat else 0%nat.
Proof.
  revert c; induction keys as [ | k keys IH]; intros c.
  - change (guesses [] c) with c. simpl. destruct (winGame (ui c)); reflexivity.
  - cbn [confettiDuring map]. rewrite guesses_cons, confetti_on_key, IH.
    destruct (winGame (ui c)) eqn:W.
    + (* won before: the keys are disabled *)
      assert (G : gameOver (ui c) = true) by (unfold gameOver; rewrite W; reflexivity).
      rewrite (step_key_when_over c k G), W. reflexivity.
    + destruct (winGame (ui (step c (ClickKey k)))) eqn:W1.
      * assert (G : gameOver (ui (step c (ClickKey k))) = true)
          by (unfold gameOver; rewrite W1; reflexivity).
        rewrite (guesses_over _ keys G), W1. reflexivity.
      * reflexivity.
Qed.

End ConfettiFacts.

(* ===================================================================== *)
(** ** Bodies without a word *)
(* ===================================================================== *)

Section Bodies.

Import Json App Scenario Sample.
Local Open Scope Q_scope.
Local Open Scope Z_scope.

Lemma getNewWord_of_extract lang data random :
  getNewWord lang (Normal data) random
  = match extractWord lang data random with
    | Normal word => [setCurrentWord word]
    | Throw _ => []
    end.
Proof. reflexivity. Qed.

Lemma extract_en_no_word fields random :
  lookup (JsString.lit "word") fields = Undefined \/
  lookup (JsString.lit "word") fields = Val (Array []) ->
  extractWord en (Object fields) random = Throw TypeError.
Proof.
  intros H. unfold extractWord, en.
  change (JsString.eqb (JsString.lit "en") (JsString.lit "en")) with true.
  cbv iota. unfold getProp, bind.
  destruct H as [-> | ->]; reflexivity.
Qed.

Lemma extract_es_no_results fields random :
  lookup (JsString.lit "results") fields = Undefined \/
  lookup (JsString.lit "results") fields = Val (Array []) ->
  extractWord es (Object fields) random = Throw TypeError.
Proof.
  intros H. unfold extractWord, es.
  change (JsString.eqb (JsString.lit "es") (JsString.lit "en")) with false.
  change (JsString.eqb (JsString.lit "es") (JsString.lit "es")) with true.
  cbv iota. unfold getProp at 1. unfold bind at 1.
  destruct H as [-> | ->]; [reflexivity | ].
  unfold getProp at 1.
  change (JsString.eqb (JsString.lit "length") (JsString.lit "length"))
    with true.
  cbv iota. unfold bind at 1.
  change (List.length (A := Json.t) []) with 0%nat.
  fold (drawIndex random (Z.of_nat 0)).
  destruct (drawIndex random (Z.of_nat 0)) as [ | negative | z];
    [reflexivity | reflexivity | ].
  unfold getElem. destruct (z <? 0); [reflexivity | ].
  destruct (Z.to_nat z); reflexivity.
Qed.

Lemma extract_es_no_palabra fields results random k entry :
  lookup (JsString.lit "results") fields = Val (Array results) ->
  drawIndex random (Z.of_nat (List.length results)) = Integer (Z.of_nat k) ->
  nth_error results k = Some (Object entry) ->
  lookup (JsString.lit "Palabra") entry = Undefined ->
  extractWord es (Object fields) random = Throw TypeError.
Proof.
  intros R D N P. unfold extractWord, es.
  change (JsString.eqb (JsString.lit "es") (JsString.lit "en")) with false.
  change (JsString.eqb (JsString.lit "es") (JsString.lit "es")) with true.
  cbv iota. unfold getProp at 1. unfold bind at 1. rewrite R.
  unfold getProp at 1.
  change (JsString.eqb (JsString.lit "length") (JsString.lit "length"))
    with true.
  cbv iota. unfold bind at 1.
  fold (drawIndex random (Z.of_nat (List.length results))). rewrite D.
  unfold getElem.
  assert (Z : (Z.of_nat k <? 0)%Z = false) by (apply Z.ltb_ge; lia).
  rewrite Z, Nat2Z.id, N. unfold bind at 1.
  unfold getProp, bind. rewrite P. reflexivity.
Qed.

(** X16: a body without a usable word sets no word. [getNewWord] calls no
    setter when the request or [res.json()] throws, when the body is
    [null], when the English body has no [word] or an empty [word] array,
    when the Spanish body has no [results] or an empty [results] array
    (for every value of [Math.random()]), and when the entry at the index
    [Math.floor(random * n)], the product rounded as binary64, has no
    [Palabra]. *)
Theorem body_without_word_sets_no_word :
  (forall lang e random, getNewWord lang (Throw e) random = []) /\
  (forall random, getNewWord en (Normal Null) random = [] /\
                  getNewWord es (Normal Null) random = []) /\
  (forall fields random,
      lookup (JsString.lit "word") fields = Undefined \/
      lookup (JsString.lit "word") fields = Val (Array []) ->
      getNewWord en (Normal (Object fields)) random = []) /\
  (forall fields random,
      lookup (JsString.lit "results") fields = Undefined \/
      lookup (JsString.lit "results") fields = Val (Array []) ->
      getNewWord es (Normal (Object fields)) random = []) /\
  (forall fields results random k entry,
      lookup (JsString.lit "results") fields = Val (Array results) ->
      drawIndex random (Z.of_nat (List.length results))
      = Integer (Z.of_nat k) ->
      nth_error results k = Some (Object entry) ->
      lookup (JsString.lit "Palabra") entry = Undefined ->
      getNewWord es (Normal (Object fields)) random = []).
Proof.
  split; [reflexivity | ]. split; [split; reflexivity | ].
  split; [ | split].
  - intros fields random H.
    rewrite getNewWord_of_extract, (extract_en_no_word _ _ H). reflexivity.
  - intros fields random H.
    rewrite getNewWord_of_extract, (extract_es_no_results _ _ H). reflexivity.
  - intros fields results random k entry R D N P.
    rewrite getNewWord_of_extract,
      (extract_es_no_palabra _ _ _ _ _ R D N P).
    reflexivity.
Qed.

(** X17: when the English body holds the word as a plain string and not
    as an array, [data.word[0]] is its first character: for a first
    character within U+0000 to U+00FF the target word is that one letter,
    lower-cased. *)
Theorem english_word_given_as_string fields ch rest random :
  lookup (JsString.lit "word") fields = Val (Str (ch :: rest)) ->
  0 <= ch <= 255 ->
  getNewWord en (Normal (Object fields)) random
  = [setCurrentWord [JsString.lower_unit ch]].
Proof.
  intros H _. rewrite getNewWord_of_extract. unfold extractWord, en.
  change (JsString.eqb (JsString.lit "en") (JsString.lit "en")) with true.
  cbv iota. unfold getProp, bind. rewrite H. reflexivity.
Qed.

Lemma english_word_given_as_string_witness :
  lookup (JsString.lit "word")
         [(JsString.lit "word", Str (JsString.lit "Apple"))]
  = Val (Str (65 :: JsString.lit "pple")) /\
  0 <= 65 <= 255 /\
  getNewWord en
    (Normal (Object [(JsString.lit "word", Str (JsString.lit "Apple"))])) 0
  = [setCurrentWord (JsString.lit "a")].
Proof.
  split; [reflexivity | ]. split; [lia | ].
  apply (english_word_given_as_string
           [(JsString.lit "word", Str (JsString.lit "Apple"))]
           65 (JsString.lit "pple") 0 eq_refl).
  lia.
Defined.

End Bodies.

(* ===================================================================== *)
(** ** The shape of an extracted word *)
(* ===================================================================== *)

Section PlainWords.

Import Json App Scenario Sample WordShape.
Local Open Scope Z_scope.

Ltac by_ranges :=
  repeat match goal with
         | |- context [(?a <=? ?b)] => destruct (Z.leb_spec a b)
         | |- context [(?a =? ?b)] => destruct (Z.eqb_spec a b)
         end.

Lemma lower_unit_range (ch : JsString.code_unit) :
  notCapital (JsString.lower_unit ch) /\
  (192 <= JsString.lower_unit ch <= 222 -> JsString.lower_unit ch = 215).
Proof.
  unfold notCapital, JsString.lower_unit. by_ranges; simpl; lia.
Qed.

Lemma capital_decomposition_range (k base mark : Z) :
  0 <= k <= 30 ->
  JsString.capital_decomposition k = Some (base, mark) ->
  65 <= base <= 90 /\ 768 <= mark <= 879.
Proof.
  intros K H.
  assert (T : forallb
                (fun n => match JsString.capital_decomposition (Z.of_nat n) with
                          | Some (b, m) =>
                              (65 <=? b) && (b <=? 90) && (768 <=? m)
                              && (m <=? 879)
                          | None => true
                          end) (seq 0 31) = true) by (vm_compute; reflexivity).
  rewrite forallb_forall in T.
  specialize (T (Z.to_nat k)). rewrite Z2Nat.id in T by lia.
  rewrite H in T.
  assert (I : In (Z.to_nat k) (seq 0 31)) by (apply in_seq; lia).
  specialize (T I). rewrite !andb_true_iff, !Z.leb_le in T. lia.
Qed.

Lemma decompose_unit_plain (ch : JsString.code_unit) :
  notCapital ch -> (192 <= ch <= 222 -> ch = 215) ->
  Forall notCapital (JsString.decompose_unit ch).
Proof.
  intros NC R. unfold JsString.decompose_unit.
  destruct (Z.leb_spec 192 ch) as [A1 | A1],
           (Z.leb_spec ch 222) as [A2 | A2]; simpl.
  { rewrite (R (conj A1 A2)). repeat constructor. unfold notCapital; lia. }
  all: destruct (Z.leb_spec 224 ch), (Z.leb_spec ch 254); simpl;
    try (destruct (Z.eqb_spec ch 255));
    try (repeat constructor; unfold notCapital in *; lia).
  all: destruct (JsString.capital_decomposition (ch - 224))
    as [[base mark] | ] eqn:E;
    [ apply capital_decomposition_range in E; [ | lia] | ];
    repeat constructor; unfold notCapital; lia.
Qed.

Lemma toLowerCase_latin1 (s : JsString.t) :
  latin1 s -> latin1 (JsString.toLowerCase s).
Proof.
  unfold latin1, JsString.toLowerCase. intros H.
  apply Forall_forall. intros x I.
  apply in_map_iff in I as (ch & <- & I).
  rewrite Forall_forall in H. specialize (H ch I).
  unfold JsString.lower_unit. by_ranges; simpl; lia.
Qed.

Lemma toLowerCase_plain (s : JsString.t) :
  Forall notCapital (JsString.toLowerCase s).
Proof.
  unfold JsString.toLowerCase. apply Forall_forall. intros x H.
  apply in_map_iff in H as (ch & <- & _). apply lower_unit_range.
Qed.

Lemma spanish_chain_plain (s : JsString.t) :
  Forall (fun ch => notCapital ch /\ JsString.isCombiningMark ch = false)
    (JsString.removeCombiningMarks
       (JsString.normalizeNFD (JsString.toLowerCase s))).
Proof.
  unfold JsString.removeCombiningMarks. apply Forall_forall. intros x H.
  apply filter_In in H as [H M]. split; [ | destruct (JsString.isCombiningMark x);
    [discriminate M | reflexivity]].
  unfold JsString.normalizeNFD in H. apply in_flat_map in H as (d & Hd & Hx).
  unfold JsString.toLowerCase in Hd. apply in_map_iff in Hd as (ch & <- & _).
  destruct (lower_unit_range ch) as [NC R].
  pose proof (decompose_unit_plain _ NC R) as F.
  rewrite Forall_forall in F. apply F, Hx.
Qed.

Lemma extract_en_lowers (data : Json.t) (random : Q) (word : JsString.t) :
  extractWord en data random = Normal word ->
  exists w first,
    getProp (Val data) (JsString.lit "word") = Normal w /\
    getElem w (Integer 0) = Normal (Val (Str first)) /\
    word = JsString.toLowerCase first.
Proof.
  intros H. unfold extractWord, en in H.
  change (JsString.eqb (JsString.lit "en") (JsString.lit "en")) with true
    in H.
  cbv iota in H.
  destruct (getProp (Val data) (JsString.lit "word")) as [w | ] eqn:G;
    [ | discriminate H].
  unfold bind at 1 in H.
  destruct (getElem w (Integer 0)) as [first | ] eqn:E; [ | discriminate H].
  unfold bind in H.
  destruct first as [ | [ | | | s | | ]]; try discriminate H.
  injection H as <-. exists w, s. split; [ | split]; [ | exact E | ];
    reflexivity.
Qed.

Lemma extract_es_strips (results : list Json.t)
    (fields : list (JsString.t * Json.t)) (random : Q) (word : JsString.t) :
  lookup (JsString.lit "results") fields = Val (Array results) ->
  extractWord es (Object fields) random = Normal word ->
  exists entry palabra,
    In (Object entry) results /\
    lookup (JsString.lit "Palabra") entry = Val (Str palabra) /\
    word = JsString.removeCombiningMarks
             (JsString.normalizeNFD (JsString.toLowerCase palabra)).
Proof.
  intros R H. unfold extractWord, es in H.
  change (JsString.eqb (JsString.lit "es") (JsString.lit "en")) with false
    in H.
  change (JsString.eqb (JsString.lit "es") (JsString.lit "es")) with true
    in H.
  cbv iota in H. unfold getProp at 1 in H. unfold bind at 1 in H.
  rewrite R in H. unfold getProp at 1 in H.
  change (JsString.eqb (JsString.lit "length") (JsString.lit "length"))
    with true in H.
  cbv iota in H. unfold bind at 1 in H.
  fold (drawIndex random (Z.of_nat (List.length results))) in H.
  destruct (drawIndex random (Z.of_nat (List.length results)))
    as [ | negative | z]; try discriminate H.
  unfold getElem in H.
  destruct (z <? 0); [discriminate H | ].
  destruct (nth_error results (Z.to_nat z)) as [x | ] eqn:N;
    [ | discriminate H].
  unfold bind at 1 in H.
  destruct x as [ | b | n | s | xs | entry];
    try (unfold getProp in H; try destruct (JsString.eqb _ _);
         discriminate H).
  unfold getProp, bind in H.
  destruct (lookup (JsString.lit "Palabra") entry)
    as [ | [ | | | palabra | | ]] eqn:P; try discriminate H.
  injection H as <-. exists entry, palabra.
  split; [apply (nth_error_In _ _ N) | split; [exact P | reflexivity]].
Qed.

(** X18: a word taken out of a body whose strings are within U+0000 to
    U+00FF holds no capital letter A to Z. For English that is the string
    read at [data.word[0]]; for Spanish, every [Palabra] of the [results]
    array, whichever entry is drawn, and the Spanish word holds no
    combining mark (U+0300 to U+036F) either. *)
Theorem extracted_word_is_plain (random : Q) (word : JsString.t) :
  (forall data,
      (forall w first,
          getProp (Val data) (JsString.lit "word") = Normal w ->
          getElem w (Integer 0) = Normal (Val (Str first)) ->
          latin1 first) ->
      extractWord en data random = Normal word ->
      latin1 word /\ Forall notCapital word) /\
  (forall fields results,
      lookup (JsString.lit "results") fields = Val (Array results) ->
      (forall entry palabra,
          In (Object entry) results ->
          lookup (JsString.lit "Palabra") entry = Val (Str palabra) ->
          latin1 palabra) ->
      extractWord es (Object fields) random = Normal word ->
      Forall (fun ch => notCapital ch /\ JsString.isCombiningMark ch = false)
             word).
Proof.
  split.
  - intros data L H.
    destruct (extract_en_lowers data random word H) as (w & first & G & E & ->).
    split; [ | apply toLowerCase_plain].
    apply toLowerCase_latin1, (L w first G E).
  - intros fields results R _ H.
    destruct (extract_es_strips results fields random word R H)
      as (entry & palabra & _ & _ & ->).
    apply spanish_chain_plain.
Qed.

Lemma extracted_word_is_plain_witness :
  lookup (JsString.lit "results")
         [(JsString.lit "results",
           Array [Object [(JsString.lit "Palabra", Str ARBOL)]])]
  = Val (Array [Object [(JsString.lit "Palabra", Str ARBOL)]]) /\
  latin1 ARBOL /\
  extractWord es (spanishBody [ARBOL]) 0 = Normal (JsString.lit "arbol") /\
  Forall (fun ch => notCapital ch /\ JsString.isCombiningMark ch = false)
         (JsString.lit "arbol").
Proof.
  assert (A : latin1 ARBOL) by (repeat constructor; lia).
  assert (E : extractWord es (spanishBody [ARBOL]) 0
              = Normal (JsString.lit "arbol")) by (vm_compute; reflexivity).
  split; [reflexivity | split; [exact A | split; [exact E | ]]].
  destruct (extracted_word_is_plain 0 (JsString.lit "arbol")) as [_ S].
  apply (S [(JsString.lit "results",
             Array [Object [(JsString.lit "Palabra", Str ARBOL)]])]
           [Object [(JsString.lit "Palabra", Str ARBOL)]] eq_refl);
    [ | exact E].
  intros entry palabra [I | []] P.
  injection I as <-. injection P as <-. exact A.
Defined.

End PlainWords.

(* ===================================================================== *)
(** ** Client and proxy together *)
(* ===================================================================== *)

Section ClientAndProxy.

Import Json App Scenario Sample EndToEnd WordShape.
Local Open Scope Q_scope.

Variable env : Proxy.Env.
Variable upstream : Proxy.network.

(** The one reply of the handler, by the outcome of the upstream call. *)
Lemma serve_replies (q : Proxy.queryValue) :
  Proxy.replies (Proxy.serve env upstream q)
  = [match upstream (if Proxy.isEn (Proxy.langOf q)
                     then Proxy.englishRequest env
                     else Proxy.spanishRequest env) with
     | Normal resp =>
         match Proxy.json resp with
         | Normal data => Proxy.mkReply 200 data
         | Throw _ => Proxy.mkReply 500 Proxy.errorBody
         end
     | Throw _ => Proxy.mkReply 500 Proxy.errorBody
     end].
Proof.
  unfold Proxy.serve, Proxy.handler, Proxy.tryCatch, Proxy.bindM, Proxy.fetch,
    Proxy.response_json, Proxy.res_json, Proxy.console_error.
  destruct (Proxy.isEn (Proxy.langOf q)); simpl;
    match goal with
    | |- context [upstream ?r] =>
        destruct (upstream r) as [resp | e]; simpl;
        [destruct (Proxy.json resp); reflexivity | reflexivity]
    end.
Qed.

Lemma flag_request (f : flag) :
  (if Proxy.isEn (Proxy.langOf (queryOf (Some (flagCode f))))
   then Proxy.englishRequest env else Proxy.spanishRequest env)
  = providerOf env f.
Proof. destruct f; reflexivity. Qed.

(** X19: the request of the client reaches the provider of the chosen
    language, with that provider's credential, and a well-formed answer
    comes back as the target word: for the UK flag the first element of
    the [word] array, lower-cased; for the Spanish flag the [Palabra] of
    the entry at the index [Math.floor(random * n)], the product rounded
    as binary64, lower-cased and without marks. The two words are stated
    for strings of code units up to U+00FF. *)
Theorem word_through_proxy :
  (forall f, Proxy.outbound (Proxy.serve env upstream
                               (queryOf (Some (flagCode f))))
             = [providerOf env f]) /\
  (forall resp fields first rest random,
      upstream (Proxy.englishRequest env) = Normal resp ->
      Proxy.json resp = Normal (Object fields) ->
      lookup (JsString.lit "word") fields = Val (Array (Str first :: rest)) ->
      latin1 first ->
      fetchedWord env upstream en random
      = [setCurrentWord (JsString.toLowerCase first)]) /\
  (forall resp fields results random k entry palabra,
      upstream (Proxy.spanishRequest env) = Normal resp ->
      Proxy.json resp = Normal (Object fields) ->
      lookup (JsString.lit "results") fields = Val (Array results) ->
      drawIndex random (Z.of_nat (List.length results))
      = Integer (Z.of_nat k) ->
      nth_error results k = Some (Object entry) ->
      lookup (JsString.lit "Palabra") entry = Val (Str palabra) ->
      latin1 palabra ->
      fetchedWord env upstream es random
      = [setCurrentWord
           (JsString.removeCombiningMarks
              (JsString.normalizeNFD (JsString.toLowerCase palabra)))]).
Proof.
  split; [ | split].
  - intros f. rewrite serve_outbound, flag_request. reflexivity.
  - intros resp fields first rest random U J W _.
    unfold fetchedWord, throughProxy. change en with (Some (flagCode UK)).
    rewrite serve_replies, (flag_request UK). cbv [providerOf].
    rewrite U, J. cbv iota beta.
    change (Proxy.body (Proxy.mkReply 200 (Object fields)))
      with (Object fields).
    change (Some (flagCode UK)) with en.
    rewrite getNewWord_of_extract,
      (extract_english fields first rest random W).
    reflexivity.
  - intros resp fields results random k entry palabra U J R D N P _.
    unfold fetchedWord, throughProxy. change es with (Some (flagCode Spain)).
    rewrite serve_replies, (flag_request Spain). cbv [providerOf].
    rewrite U, J. cbv iota beta.
    change (Proxy.body (Proxy.mkReply 200 (Object fields)))
      with (Object fields).
    change (Some (flagCode Spain)) with es.
    rewrite getNewWord_of_extract,
      (extract_spanish fields entry results random k palabra R D N P).
    reflexivity.
Qed.

(** X20: when the upstream call fails, or its body is not JSON, the client
    is given the error body of the proxy, finds no word in it and calls no
    setter: the response leaves the whole state of the game as it was,
    with the word it had. *)
Theorem proxy_failure_sets_no_word (f : flag) (random : Q)
    (c : Component) (k : nat) :
  (exists e, upstream (providerOf env f) = Throw e) \/
  (exists resp e, upstream (providerOf env f) = Normal resp /\
                  Proxy.json resp = Throw e) ->
  nth_error (inFlight c) k = Some (Some (flagCode f)) ->
  throughProxy env upstream (Some (flagCode f)) = Normal Proxy.errorBody /\
  fetchedWord env upstream (Some (flagCode f)) random = [] /\
  ui (step c (Settle k (throughProxy env upstream (Some (flagCode f))) random))
  = ui c.
Proof.
  intros H N.
  assert (T : throughProxy env upstream (Some (flagCode f))
              = Normal Proxy.errorBody).
  { unfold throughProxy. rewrite serve_replies, flag_request.
    destruct H as [[e U] | (resp & e & U & J)]; rewrite U; [reflexivity | ].
    rewrite J. reflexivity. }
  assert (F : getNewWord (Some (flagCode f)) (Normal Proxy.errorBody) random
              = []) by (destruct f; reflexivity).
  split; [exact T | ]. unfold fetchedWord. rewrite T.
  split; [exact F | ].
  rewrite (step_settle c k _ random _ N), F.
  destruct c as [[w g win n l] fl]; reflexivity.
Qed.

End ClientAndProxy.

Section ClientAndProxyExamples.

Import Json App Scenario Sample EndToEnd.

Lemma proxy_failure_sets_no_word_witness :
  ((exists e, deadNetwork (providerOf sampleEnv UK) = Throw e) \/
   (exists resp e, deadNetwork (providerOf sampleEnv UK) = Normal resp /\
                   Proxy.json resp = Throw e)) /\
  nth_error (inFlight loading) 0 = Some (Some (flagCode UK)) /\
  ui (step loading
        (Settle 0 (throughProxy sampleEnv deadNetwork (Some (flagCode UK))) 0))
  = ui loading.
Proof.
  assert (H : (exists e, deadNetwork (providerOf sampleEnv UK) = Throw e) \/
              (exists resp e,
                  deadNetwork (providerOf sampleEnv UK) = Normal resp /\
                  Proxy.json resp = Throw e))
    by (left; exists NetworkError; reflexivity).
  assert (N : nth_error (inFlight loading) 0 = Some (Some (flagCode UK)))
    by (vm_compute; reflexivity).
  split; [exact H | split; [exact N | ]].
  destruct (proxy_failure_sets_no_word sampleEnv deadNetwork UK 0 loading 0
              H N) as (_ & _ & S).
  exact S.
Defined.

End ClientAndProxyExamples.

(* ===================================================================== *)
(** ** Credentials and races *)
(* ===================================================================== *)

Section Secrets.

Import Proxy.

(** X21: the credentials stay on the server. The reply of the proxy
    depends on the environment only through what the provider answers:
    two runs in which the provider gives the same outcome send the same
    reply, whatever the keys are. And each key goes to its own provider
    only: the request to the English provider does not depend on the
    Spanish token, nor the request to the Spanish provider on the English
    key. *)
Theorem credentials_stay_on_the_server :
  (forall env1 env2 (net1 net2 : network) q,
      net1 (if isEn (langOf q) then englishRequest env1
            else spanishRequest env1)
      = net2 (if isEn (langOf q) then englishRequest env2
              else spanishRequest env2) ->
      replies (serve env1 net1 q) = replies (serve env2 net2 q)) /\
  (forall ninjas spanish spanish' net q,
      isEn (langOf q) = true ->
      outbound (serve (mkEnv ninjas spanish) net q)
      = outbound (serve (mkEnv ninjas spanish') net q)) /\
  (forall ninjas ninjas' spanish net q,
      isEn (langOf q) = false ->
      outbound (serve (mkEnv ninjas spanish) net q)
      = outbound (serve (mkEnv ninjas' spanish) net q)).
Proof.
  split; [ | split].
  - intros env1 env2 net1 net2 q H. rewrite !serve_replies, H. reflexivity.
  - intros ninjas spanish spanish' net q E.
    rewrite !serve_outbound, E. reflexivity.
  - intros ninjas ninjas' spanish net q E.
    rewrite !serve_outbound, E. reflexivity.
Qed.

End Secrets.

Section Races.

Import Json App Scenario Sample.

(** X22: responses are not matched to games. With two requests waiting,
    each answered with a body that holds a word, the target word in the
    end is the word of the response that arrives last, whichever request
    was issued first; the guessed letters and the count are untouched. *)
Theorem last_response_wins (c : Component) first second
    (body1 body2 : completion Json.t) (r1 r2 : Q) (word1 word2 : JsString.t) :
  inFlight c = [first; second] ->
  getNewWord first body1 r1 = [setCurrentWord word1] ->
  getNewWord second body2 r2 = [setCurrentWord word2] ->
  let inOrder := run [Settle 0 body1 r1; Settle 0 body2 r2] c in
  let swapped := run [Settle 1 body2 r2; Settle 0 body1 r1] c in
  currentWord (ui inOrder) = word2 /\
  currentWord (ui swapped) = word1 /\
  inFlight inOrder = [] /\ inFlight swapped = [] /\
  guessedLetters (ui swapped) = guessedLetters (ui c) /\
  wrongAttemps (ui swapped) = wrongAttemps (ui c).
Proof.
  intros F G1 G2 inOrder swapped. subst inOrder swapped.
  unfold run; cbn [fold_left].
  assert (N0 : nth_error (inFlight c) 0 = Some first) by (rewrite F; reflexivity).
  assert (N1 : nth_error (inFlight c) 1 = Some second) by (rewrite F; reflexivity).
  rewrite (step_settle c 0 body1 r1 first N0), G1, F. simpl removeNth.
  rewrite (step_settle c 1 body2 r2 second N1), G2, F. simpl removeNth.
  rewrite (step_settle _ 0 body2 r2 second) by reflexivity. rewrite G2.
  rewrite (step_settle _ 0 body1 r1 first) by reflexivity. rewrite G1.
  repeat split.
Qed.

Lemma last_response_wins_witness :
  reachable twoWaiting /\
  inFlight twoWaiting = [en; en] /\
  getNewWord en catBody 0 = [setCurrentWord (JsString.lit "cat")] /\
  getNewWord en dogBody 0 = [setCurrentWord (JsString.lit "dog")] /\
  currentWord (ui (run [Settle 1 dogBody 0; Settle 0 catBody 0] twoWaiting))
  = JsString.lit "cat".
Proof.
  assert (R : reachable twoWaiting) by (apply run_reachable, reach_initial).
  assert (F : inFlight twoWaiting = [en; en]) by (vm_compute; reflexivity).
  assert (G1 : getNewWord en catBody 0
               = [setCurrentWord (JsString.lit "cat")])
    by (vm_compute; reflexivity).
  assert (G2 : getNewWord en dogBody 0
               = [setCurrentWord (JsString.lit "dog")])
    by (vm_compute; reflexivity).
  split; [exact R | ].
  split; [exact F | split; [exact G1 | split; [exact G2 | ]]].
  destruct (last_response_wins twoWaiting en en catBody dogBody 0 0 _ _
              F G1 G2) as (_ & H & _).
  exact H.
Defined.

End Races.
